(** * PartiSn input-deck preparation ([pyne/partisn.py]): zone reduction

    A shallow embedding of the functions of [pyne/partisn.py] that derive
    the coordinate system, the material library and the zone map of a
    PARTISN input deck, followed by the properties established for them.

    Conventions of the embedding.
    - Python [float]s are modelled as exact rationals ([Q]); rounding is
      not modelled.  Concrete inputs keep wide margins around every
      tolerance threshold they exercise, and the tolerance tests they
      rely on are evaluated on binary64 values as well.
    - Python exceptions are values of [exn]; a function that may raise
      returns a [result].
    - A Python [dict] whose iteration order matters ([voxel], [zones],
      [zones_mats]: all keyed by small non-negative integers) is an
      association list kept in ascending key order, which is the order in
      which CPython 2 iterates over such a dictionary.  The properties of
      the deduplication are stated for the voxels in any order, provided
      no voxel number occurs twice.  Dictionaries that are only looked up
      are [gmap]s.
    - The collaborators outside this file ([dagmc], [MaterialLibrary],
      the mesh) appear through the values they return. *)

From Stdlib Require Import ZArith QArith Qabs Lqa Lia Sorted Floats Ascii.
From stdpp Require Import gmap strings pretty list fin_maps.

(** ** Exceptions and results *)

Inductive exn : Type :=
  | KeyError (key : Z)
  | IndexError
  | ValueError
  | UnboundLocalError (name : string).

Inductive result (A : Type) : Type :=
  | Ok (a : A)
  | Raise (e : exn).
Arguments Ok {A} a.
Arguments Raise {A} e.

#[global] Instance result_ret : MRet result := λ A a, Ok a.
#[global] Instance result_bind : MBind result :=
  λ A B f m, match m with Ok a => f a | Raise e => Raise e end.

(** [for x in xs: s = body x s], stopping at the first exception. *)
Fixpoint for_ {A S : Type} (xs : list A) (body : A → S → result S) (s : S)
  : result S :=
  match xs with
  | [] => Ok s
  | x :: rest => match body x s with
                 | Ok s' => for_ rest body s'
                 | Raise e => Raise e
                 end
  end.

(** [range(n)] *)
Definition range (n : Z) : list Z := Z.of_nat <$> seq 0 (Z.to_nat n).

(** [enumerate(l)] *)
Definition enumerate {A : Type} (l : list A) : list (nat * A) :=
  zip (seq 0 (length l)) l.

(** [l[i]] for a non-negative index *)
Definition getitem {A : Type} (l : list A) (i : nat) : result A :=
  match l !! i with Some a => Ok a | None => Raise IndexError end.

(** ** Dictionaries with integer keys, iterated in ascending key order *)

Abbreviation dict V := (list (Z * V)) (only parsing).

Fixpoint dict_get {V : Type} (k : Z) (d : dict V) : option V :=
  match d with
  | [] => None
  | (k', v) :: rest => if (k =? k')%Z then Some v else dict_get k rest
  end.

(** [d[k] = v] *)
Fixpoint dict_set {V : Type} (k : Z) (v : V) (d : dict V) : dict V :=
  match d with
  | [] => [(k, v)]
  | (k', v') :: rest =>
      if (k <? k')%Z then (k, v) :: d
      else if (k =? k')%Z then (k, v) :: rest
      else (k', v') :: dict_set k v rest
  end.

(** [d.keys()] and [d.iteritems()] *)
Definition dict_keys {V : Type} (d : dict V) : list Z := d.*1.
Definition iteritems {V : Type} (d : dict V) : list (Z * V) := d.

(** [d[k]] *)
Definition dict_getitem {V : Type} (d : dict V) (k : Z) : result V :=
  match dict_get k d with Some v => Ok v | None => Raise (KeyError k) end.

(** ** [_get_coord_sys] *)

(** The mesh is seen through [mesh.structured_get_divisions(axis)]. *)
Record Mesh : Type := { structured_get_divisions : string → list Q }.

(** The characters of a string, as [for i in coord_sys] yields them. *)
Fixpoint chars (s : string) : list string :=
  match s with
  | EmptyString => []
  | String a rest => String a EmptyString :: chars rest
  end.

Definition coord_sys_of (mesh : Mesh) : string :=
  let nx := length (structured_get_divisions mesh "x") in
  let ny := length (structured_get_divisions mesh "y") in
  let nz := length (structured_get_divisions mesh "z") in
  let coord_sys := "" in
  let coord_sys := if 2 <? nx then coord_sys +:+ "x" else coord_sys in
  let coord_sys := if 2 <? ny then coord_sys +:+ "y" else coord_sys in
  let coord_sys := if 2 <? nz then coord_sys +:+ "z" else coord_sys in
  coord_sys.

Definition _get_coord_sys (mesh : Mesh)
  : result (string * gmap string (list Q)) :=
  let coord_sys := coord_sys_of mesh in
  (* collect values of mesh boundaries for each coordinate *)
  let bounds : gmap string (list Q) :=
    foldl (λ bounds i, <[i := structured_get_divisions mesh i]> bounds)
          ∅ (chars coord_sys) in
  (* IGEOM stays unassigned when no branch is taken *)
  let IGEOM : option string :=
    if decide (String.length coord_sys = 1) then Some "SLAB"
    else if decide (String.length coord_sys = 2) then Some "X-Y"
    else if decide (String.length coord_sys = 3) then Some "X-Y-Z"
    else None in
  match IGEOM with
  | Some g => Ok (g, bounds)
  | None => Raise (UnboundLocalError "IGEOM")
  end.

(** ** [_get_material_lib] *)

(** Python dictionaries are objects: [comp_list] is allocated once and
    every [mat_lib[mat_name] = comp_list] stores a reference to it.  The
    heap maps references to the dictionaries (nucid to atom density) they
    denote. *)
Abbreviation ref := nat (only parsing).
Abbreviation heap := (gmap ref (gmap Z Q)) (only parsing).

(** [{}]: a fresh empty dictionary *)
Definition new_dict (h : heap) : ref * heap :=
  let r := fresh (dom h) in (r, <[r := ∅]> h).

(** [d[k] = v] through the reference [d] *)
Definition heap_setitem (d : ref) (k : Z) (v : Q) (h : heap) : heap :=
  alter (insert k v) d h.

(** [10.**-24] *)
Definition ten_pow_m24 : Q := 1 # (10 ^ 24).

(** [atom_dens] lists, in the order of [mats_collapsed.iteritems()], each
    material name with the items of its [comp.to_atom_dens()]. *)
Definition _get_material_lib (atom_dens : list (string * list (Z * Q)))
  (h : heap) : gmap string ref * heap :=
  let mat_lib : gmap string ref := ∅ in
  let '(comp_list, h) := new_dict h in
  foldl (λ '(mat_lib, h) '(mat_name, atom_dens_dict),
           let h :=
             foldl (λ h '(nucid, dens),
                      (* convert from [at/cc] to [at/b-cm] *)
                      heap_setitem comp_list nucid (dens * ten_pow_m24)%Q h)
                   h atom_dens_dict in
           (<[mat_name := comp_list]> mat_lib, h))
        (mat_lib, h) atom_dens.

(** ** [_get_zones] *)

(** One record of [dagmc.discretize_geom(mesh)]: voxel number [i[0]],
    cell [i[1]] and volume fraction [i[2]]. *)
Definition dg_record : Type := Z * Z * Q.

(** [voxel[idx]]: [{'cell': [...], 'vol_frac': [...]}] *)
Module Voxel.
Record t : Type := mk { cell : list Z; vol_frac : list Q }.
End Voxel.

(** [zones[z]]: [{'mat': [...], 'vol_frac': [...]}] *)
Module Zone.
Record t : Type := mk { mat : list string; vol_frac : list Q }.
End Zone.

(** *** Reorganising the discretisation by voxel number *)

Definition group_voxels (dg : list dg_record) : dict Voxel.t :=
  foldl (λ voxel i,
           let '(idx, c, vf) := i in
           (* a voxel not yet in [voxel.keys()] starts with empty lists *)
           let v := default (Voxel.mk [] []) (dict_get idx voxel) in
           dict_set idx (Voxel.mk (Voxel.cell v ++ [c])
                                  (Voxel.vol_frac v ++ [vf])) voxel)
        [] dg.

(** *** Replacing cells by materials, merging duplicate materials *)

(** [mat_assigns[cell]] *)
Definition mat_of (mat_assigns : gmap Z string) (cell : Z) : result string :=
  match mat_assigns !! cell with
  | Some m => Ok m
  | None => Raise (KeyError cell)
  end.

(** The [else] branch: every position [j] of the material list that
    holds [m] has [voxel[z]['vol_frac'][i]], here [f], added to it. *)
Definition add_at (m : string) (f : result Q) (jval : nat * string)
  (vol_frac : list Q) : result (list Q) :=
  let '(j, val) := jval in
  if decide (m = val) then
    old ← getitem vol_frac j;
    f ← f;
    Ok (<[j := (old + f)%Q]> vol_frac)
  else Ok vol_frac.

Definition add_to_existing (m : string) (f : result Q)
  (mats : list string) (vol_frac : list Q) : result (list Q) :=
  for_ (enumerate mats) (add_at m f) vol_frac.

(** The body of the loop over [enumerate(voxel[z]['cell'])]. *)
Definition merge_cell (mat_assigns : gmap Z string) (v : Voxel.t)
  (icell : nat * Z) (zone : Zone.t) : result Zone.t :=
  let '(i, cell) := icell in
  m ← mat_of mat_assigns cell;
  if bool_decide (m ∉ Zone.mat zone) then
    (* create new entry *)
    f ← getitem (Voxel.vol_frac v) i;
    Ok (Zone.mk (Zone.mat zone ++ [m]) (Zone.vol_frac zone ++ [f]))
  else
    (* update value that already exists with new volume fraction *)
    vol_frac ← add_to_existing m (getitem (Voxel.vol_frac v) i)
                               (Zone.mat zone) (Zone.vol_frac zone);
    Ok (Zone.mk (Zone.mat zone) vol_frac).

Definition merge_cells (mat_assigns : gmap Z string) (v : Voxel.t)
  : result Zone.t :=
  for_ (enumerate (Voxel.cell v)) (merge_cell mat_assigns v) (Zone.mk [] []).

(** The body of the loop over [voxel.keys()]. *)
Definition merge_voxel (mat_assigns : gmap Z string) (voxel : dict Voxel.t)
  (z : Z) (zones : dict Zone.t) : result (dict Zone.t) :=
  v ← dict_getitem voxel z;
  info ← merge_cells mat_assigns v;
  Ok (dict_set z info zones).

Definition merge_materials (mat_assigns : gmap Z string)
  (voxel : dict Voxel.t) : result (dict Zone.t) :=
  for_ (dict_keys voxel) (merge_voxel mat_assigns voxel) [].

(** *** Eliminating duplicate zones *)

(** NumPy broadcasting of two one-dimensional arrays. *)
Definition np_broadcast {A : Type} (a b : list A) : result (list (A * A)) :=
  if decide (length a = length b) then Ok (zip a b)
  else match a, b with
       | [x], _ => Ok ((λ y, (x, y)) <$> b)
       | _, [y] => Ok ((λ x, (x, y)) <$> a)
       | _, _ => Raise ValueError
       end.

(** The element test of [np.allclose]: [|a - b| <= atol + rtol * |b|]. *)
Definition within_tol (rtol atol a b : Q) : bool :=
  Qle_bool (Qabs (a - b)) (atol + rtol * Qabs b).

Definition np_allclose (a b : list Q) (rtol atol : Q) : result bool :=
  ab ← np_broadcast a b;
  Ok (forallb (λ '(x, y), within_tol rtol atol x y) ab).

(** [1e-8]: the [rtol] passed by [_get_zones], and the default [atol] of
    [np.allclose], which [_get_zones] leaves in place. *)
Definition rtol_1e_8 : Q := 1 # 100000000.
Definition np_default_atol : Q := 1 # 100000000.

(** The condition of the [if] in the scan of [zones_mats]. *)
Definition same_zone (vals info : Zone.t) : result bool :=
  if bool_decide (Zone.mat vals = Zone.mat info) then
    np_allclose (Zone.vol_frac vals) (Zone.vol_frac info)
                rtol_1e_8 np_default_atol
  else Ok false.

Definition void_mats : list (list string) :=
  [["mat:Vacuum"]; ["mat:vacuum"]; ["mat:graveyard"]; ["mat:Graveyard"]].

(** The variables of the loop over [zones.iteritems()]; [y] is unbound
    until a match assigns it. *)
Module St.
Record t : Type := mk {
  voxel_zone : gmap Z Z;
  zones_mats : dict Zone.t;
  z : Z;
  match_ : bool;
  first : bool;
  y : option Z
}.
End St.

Definition dedup_init : St.t :=
  St.mk ∅ [] 0 false true None.

(** [for zone, info in zones_mats.iteritems(): ...], leaving through
    [break] at the first match. *)
Fixpoint scan (vals : Zone.t) (items : list (Z * Zone.t))
  (match_ : bool) (y : option Z) : result (bool * option Z) :=
  match items with
  | [] => Ok (match_, y)
  | (zone, info) :: rest =>
      c ← same_zone vals info;
      if c : bool then Ok (true, Some zone)
      else scan vals rest false y
  end.

(** The body of the loop over [zones.iteritems()]. *)
Definition assign_zone (item : Z * Zone.t) (st : St.t) : result St.t :=
  let '(i, vals) := item in
  '(match_, y) ← scan vals (iteritems (St.zones_mats st))
                      (St.match_ st) (St.y st);
  if St.first st || negb match_ then
    if bool_decide (Zone.mat vals ∈ void_mats) then
      Ok (St.mk (<[i := 0%Z]> (St.voxel_zone st)) (St.zones_mats st)
                (St.z st) match_ (St.first st) y)
    else
      let z := (St.z st + 1)%Z in
      Ok (St.mk (<[i := z]> (St.voxel_zone st))
                (dict_set z vals (St.zones_mats st))
                z match_ false y)
  else
    if bool_decide (Zone.mat vals ∈ void_mats) then
      Ok (St.mk (<[i := 0%Z]> (St.voxel_zone st)) (St.zones_mats st)
                (St.z st) match_ (St.first st) y)
    else
      match y with
      | Some zone =>
          Ok (St.mk (<[i := zone]> (St.voxel_zone st)) (St.zones_mats st)
                    (St.z st) match_ (St.first st) y)
      | None => Raise (UnboundLocalError "y")
      end.

Definition assign_zones (zones : dict Zone.t) : result St.t :=
  for_ (iteritems zones) assign_zone dedup_init.

(** *** Putting zones into the format of the PARTISN input *)

(** A two-dimensional integer array in row-major order. *)
Record ndarray : Type := { shape : Z * Z; data : list Z }.

(** [np.zeros(shape=(r, c), dtype=int)] *)
Definition np_zeros (r c : Z) : result ndarray :=
  if decide (r < 0 ∨ c < 0)%Z then Raise ValueError
  else Ok {| shape := (r, c); data := replicate (Z.to_nat (r * c)) 0%Z |}.

(** [a[i, j] = v] for non-negative indices *)
Definition nd_setitem (a : ndarray) (i j : Z) (v : Z) : result ndarray :=
  let '(r, c) := shape a in
  if decide (0 ≤ i < r ∧ 0 ≤ j < c)%Z then
    Ok {| shape := shape a; data := <[Z.to_nat (i * c + j) := v]> (data a) |}
  else Raise IndexError.

(** [a[i, j]] for non-negative indices *)
Definition nd_getitem (a : ndarray) (i j : Z) : option Z :=
  let '(r, c) := shape a in
  if decide (0 ≤ i < r ∧ 0 ≤ j < c)%Z then data a !! Z.to_nat (i * c + j)
  else None.

(** [len(bounds[axis]) - 1] if [axis in bounds.keys()], else [1] *)
Definition intervals (bounds : gmap string (list Q)) (axis : string) : Z :=
  match bounds !! axis with
  | Some b => (Z.of_nat (length b) - 1)%Z
  | None => 1%Z
  end.

(** [voxel_zone[n]] *)
Definition zone_of (voxel_zone : gmap Z Z) (n : Z) : result Z :=
  match voxel_zone !! n with
  | Some zone => Ok zone
  | None => Raise (KeyError n)
  end.

(** [ZONES[i,jk] = voxel_zone[n]; n += 1] *)
Definition fill_cell (voxel_zone : gmap Z Z) (i jk : Z) (st : Z * ndarray)
  : result (Z * ndarray) :=
  let '(n, ZONES) := st in
  zone ← zone_of voxel_zone n;
  ZONES ← nd_setitem ZONES i jk zone;
  Ok ((n + 1)%Z, ZONES).

Definition fill_ZONES (bounds : gmap string (list Q)) (voxel_zone : gmap Z Z)
  : result ndarray :=
  let im := intervals bounds "x" in
  let jm := intervals bounds "y" in
  let km := intervals bounds "z" in
  let n := 0%Z in
  ZONES ← np_zeros im (jm * km);
  '(n, ZONES) ←
    for_ (range im)
         (λ i, for_ (range (jm * km)) (fill_cell voxel_zone i))
         (n, ZONES);
  Ok ZONES.

(** [dg] stands for [dagmc.discretize_geom(mesh)] and [mat_assigns] for
    [dagmc.materials_to_cells(hdf5)]. *)
Definition _get_zones (dg : list dg_record) (mat_assigns : gmap Z string)
  (bounds : gmap string (list Q)) : result (ndarray * dict Zone.t) :=
  let voxel := group_voxels dg in
  zones ← merge_materials mat_assigns voxel;
  st ← assign_zones zones;
  ZONES ← fill_ZONES bounds (St.voxel_zone st);
  Ok (ZONES, St.zones_mats st).

(** ** [write_partisn_input], up to the zone map *)

(** What the loaded geometry file answers to the collaborators:
    [dagmc.discretize_geom], [dagmc.materials_to_cells], and the atom
    densities of the collapsed [MaterialLibrary] for a given set of
    exception nuclides. *)
Record Geometry : Type := {
  discretize_geom : list dg_record;
  materials_to_cells : gmap Z string;
  atom_densities : gset Z → list (string * list (Z * Q))
}.

Definition _get_xs_names (nuc_names : gmap Z string) : list (Z * string) :=
  foldl (λ xs_names name, xs_names ++ [name]) [] (map_to_list nuc_names).

(** The entries of the PARTISN blocks that are set from the coordinate
    system, the material library and the zones. *)
Record deck : Type := {
  IGEOM : string;
  NGROUP : Z;
  ISN : Z;
  NISO : nat;
  MT : nat;
  ZONES : ndarray;
  NZONE : nat;
  ASSIGN : dict Zone.t
}.

(** The functions of this module in the order [write_partisn_input] has
    entered them, paired with its outcome.  [names_dict] is the optional
    keyword argument; without it [nuc_names] is never bound. *)
Definition write_partisn_input (mesh : Mesh) (hdf5 : Geometry)
  (ngroup isn : Z) (names_dict : option (gmap Z string))
  : list string * result deck :=
  let calls := ["_get_coord_sys"] in
  match _get_coord_sys mesh with
  | Raise e => (calls, Raise e)
  | Ok (igeom, bounds) =>
      match names_dict with
      | None => (calls, Raise (UnboundLocalError "nuc_names"))
      | Some nuc_names =>
          let calls := calls ++ ["_get_xs_names"] in
          let xs_names := _get_xs_names nuc_names in
          let calls := calls ++ ["_get_material_lib"] in
          let '(mat_lib, _) :=
            _get_material_lib (atom_densities hdf5 (dom nuc_names)) ∅ in
          let calls := calls ++ ["_get_zones"] in
          match _get_zones (discretize_geom hdf5) (materials_to_cells hdf5)
                           bounds with
          | Raise e => (calls, Raise e)
          | Ok (zones_array, zones) =>
              (calls,
               Ok {| IGEOM := igeom; NGROUP := ngroup; ISN := isn;
                     NISO := length xs_names; MT := size mat_lib;
                     ZONES := zones_array; NZONE := length zones;
                     ASSIGN := zones |})
          end
      end
  end.

(** ** [write_partisn_input], the mesh and source entries *)

(** What the blocks hold. *)
Inductive value : Type :=
  | Int (n : Z)
  | Floats (l : list Q)
  | Array (rows : list (list Q)).

(** [a = np.zeros(shape=(n, nmq), dtype=float)] followed by
    [a[:,0] = 1.0]: a negative dimension is refused, and column 0 does
    not exist when there is no column. *)
Definition source_array (n nmq : Z) : result value :=
  if decide (n < 0 ∨ nmq < 0)%Z then Raise ValueError
  else if decide (nmq = 0)%Z then Raise IndexError
  else Ok (Array (replicate (Z.to_nat n)
                    (1%Q :: replicate (Z.to_nat nmq - 1) 0%Q))).

Record blocks : Type := {
  block01 : gmap string value;
  block02 : gmap string value;
  block05 : gmap string value
}.

(** The body of the loop over [bounds.keys()], for [key] with
    [bounds[key] = divs]. *)
Definition set_mesh_entries (nmq : Z) (key : string) (divs : list Q)
  (b : blocks) : result blocks :=
  if decide (key = "x") then
    let n := (Z.of_nat (length divs) - 1)%Z in
    let block01 := <["IM" := Int n]> (block01 b) in
    let block01 := <["IT" := Int n]> block01 in
    let block02 := <["XMESH" := Floats divs]> (block02 b) in
    let block02 := <["XINTS" := Int 1]> block02 in
    a ← source_array n nmq;
    Ok {| block01 := block01; block02 := block02;
          block05 := <["SOURCX" := a]> (block05 b) |}
  else if decide (key = "y") then
    let n := (Z.of_nat (length divs) - 1)%Z in
    let block01 := <["JM" := Int n]> (block01 b) in
    let block01 := <["JT" := Int n]> block01 in
    let block02 := <["YMESH" := Floats divs]> (block02 b) in
    let block02 := <["YINTS" := Int 1]> block02 in
    a ← source_array n nmq;
    Ok {| block01 := block01; block02 := block02;
          block05 := <["SOURCY" := a]> (block05 b) |}
  else if decide (key = "z") then
    let n := (Z.of_nat (length divs) - 1)%Z in
    let block01 := <["KM" := Int n]> (block01 b) in
    let block01 := <["KT" := Int n]> block01 in
    let block02 := <["XZMESH" := Floats divs]> (block02 b) in
    let block02 := <["ZINTS" := Int 1]> block02 in
    a ← source_array n nmq;
    Ok {| block01 := block01; block02 := block02;
          block05 := <["SOURCZ" := a]> (block05 b) |}
  else Ok b.

(** The entries of blocks 1, 2 and 5 that [write_partisn_input] sets
    after the zones: the loop over the keys of [bounds], in the
    dictionary's own order, then [IEVT] and [SOURCE]. *)
Definition mesh_and_source_entries (bounds : gmap string (list Q))
  (ngroup nmq : Z) (b : blocks) : result blocks :=
  b ← for_ (map_to_list bounds)
           (λ '(key, divs), set_mesh_entries nmq key divs) b;
  let block05 := <["IEVT" := Int 0]> (block05 b) in
  a ← source_array ngroup nmq;
  Ok {| block01 := block01 b; block02 := block02 b;
        block05 := <["SOURCE" := a]> block05 |}.

(** ** [_nucid_to_xs] *)

(** The text of the warning for [nucid]; ["{0}".format(nucid)] is the
    decimal numeral of [nucid]. *)
Definition warning (nucid : Z) : string :=
  "Nucid " +:+ pretty nucid +:+ " does not exist in the hdf5 geometry.".

(** The inner loop, over [mat_lib[mat].keys()], fills the dictionary
    [mat_xs_names[mat]]; [warned] collects the texts handed to [warn].
    The order of [keys()] is the dictionary's own: [map_fold] visits
    every key once. *)
Definition rename_nuclides (nuc_names : gmap Z string) (comp : gmap Z Q)
  (warned : list string) : gmap string Q * list string :=
  map_fold (λ nucid dens '(xs, warned),
              match nuc_names !! nucid with
              | Some name => (<[name := dens]> xs, warned)
              | None =>
                  (<[pretty nucid := dens]> xs, warned ++ [warning nucid])
              end)
           (∅, warned) comp.

(** [mat_lib] is read here with its references followed: the composition
    under each material name.  [xs_names] is not used. *)
Definition _nucid_to_xs (mat_lib : gmap string (gmap Z Q))
  (xs_names : list (Z * string)) (nuc_names : gmap Z string)
  : gmap string (gmap string Q) * list string :=
  (* replace nucids with xs library names *)
  map_fold (λ mat comp '(mat_xs_names, warned),
              let '(xs, warned) := rename_nuclides nuc_names comp warned in
              (<[mat := xs]> mat_xs_names, warned))
           (∅, []) mat_lib.

(** ** [_title] *)

(** [c in s] for a string [c] of one character *)
Fixpoint str_contains (c : Ascii.ascii) (s : string) : bool :=
  match s with
  | EmptyString => false
  | String a rest => if decide (a = c) then true else str_contains c rest
  end.

(** [s.split(sep)] for a separator of one character *)
Fixpoint str_split (sep : Ascii.ascii) (s : string) : list string :=
  match s with
  | EmptyString => [""]
  | String a rest =>
      if decide (a = sep) then "" :: str_split sep rest
      else match str_split sep rest with
           | word :: words => String a word :: words
           | [] => [String a ""]
           end
  end.

(** [now] stands for the value of [datetime.datetime.now()]. *)
Definition _title {T : Type} (now : T) (hdf5 : string)
  : result (string * T) :=
  name ←
    (if str_contains "/"%char hdf5
     then last ← getitem (str_split "/"%char hdf5)
                         (length (str_split "/"%char hdf5) - 1);
          getitem (str_split "."%char last) 0
     else getitem (str_split "."%char hdf5) 0);
  let dt := now in
  let title := (name, dt) in
  Ok title.

(** ** Reading the material library *)

(** [mat_lib[mat_name]], followed through the reference it holds. *)
Definition composition_of (mat_lib : gmap string ref) (h : heap)
  (mat_name : string) : option (gmap Z Q) :=
  r ← mat_lib !! mat_name; h !! r.

(** The dictionary obtained by writing the converted entries of every
    material, one material after the other, into one dictionary. *)
Definition all_entries (atom_dens : list (string * list (Z * Q)))
  : gmap Z Q :=
  foldl (λ acc '(nucid, dens), <[nucid := (dens * ten_pow_m24)%Q]> acc)
        ∅ (atom_dens ≫= snd).

(** ** Reading the zone array *)

(** [voxel_zone[n]] for each [n] of [ns] in turn, up to the first key
    that is missing. *)
Fixpoint read_zones (voxel_zone : gmap Z Z) (ns : list Z) : result (list Z) :=
  match ns with
  | [] => Ok []
  | n :: rest =>
      zone ← zone_of voxel_zone n;
      zones ← read_zones voxel_zone rest;
      Ok (zone :: zones)
  end.

(** ** The shape of the zone array *)

(** An axis is active when it has more than two division points. *)
Definition active (mesh : Mesh) (axis : string) : bool :=
  2 <? length (structured_get_divisions mesh axis).

Definition mesh_intervals (mesh : Mesh) (axis : string) : Z :=
  (Z.of_nat (length (structured_get_divisions mesh axis)) - 1)%Z.

(** The dimension an axis contributes in [_get_zones]: its number of
    intervals when it is active, 1 otherwise. *)
Definition intervals_or_1 (mesh : Mesh) (axis : string) : Z :=
  if active mesh axis then mesh_intervals mesh axis else 1%Z.

(** The shape as the specification words it: the intervals of the first
    active axis (in the order x, y, z) by the product of the intervals of
    the remaining active axes. *)
Definition spec_shape (mesh : Mesh) : option (Z * Z) :=
  match filter (λ axis, active mesh axis) ["x"; "y"; "z"] with
  | [] => None
  | first_active :: remaining =>
      Some (mesh_intervals mesh first_active,
            foldr Z.mul 1%Z (mesh_intervals mesh <$> remaining))
  end.

(** ** The zone of a composition *)

(** [vals['mat'] in [['mat:Vacuum'], ...]] *)
Definition is_void (vals : Zone.t) : bool :=
  bool_decide (Zone.mat vals ∈ void_mats).

(** Both lists of a composition have the same length, as they have when
    the composition comes out of [merge_cells]. *)
Definition aligned (vals : Zone.t) : Prop :=
  length (Zone.mat vals) = length (Zone.vol_frac vals).

(** The test of [same_zone] when the arrays have equal lengths: equal
    material lists and every pair of volume fractions within tolerance. *)
Definition close (vals info : Zone.t) : bool :=
  bool_decide (Zone.mat vals = Zone.mat info)
  && forallb (λ '(x, y), within_tol rtol_1e_8 np_default_atol x y)
             (zip (Zone.vol_frac vals) (Zone.vol_frac info)).

(** The number of the first zone of the registry that [vals] is close
    to. *)
Fixpoint first_match (vals : Zone.t) (zones_mats : dict Zone.t) : option Z :=
  match zones_mats with
  | [] => None
  | (zone, info) :: rest =>
      if close vals info then Some zone else first_match vals rest
  end.

(** The zone number that a registry gives to a composition. *)
Definition zone_number (vals : Zone.t) (zones_mats : dict Zone.t)
  : option Z :=
  if is_void vals then Some 0%Z else first_match vals zones_mats.

(** Linear search or insert: the loop body of the deduplication without
    its flags. *)
Definition register (s : gmap Z Z * dict Zone.t) (item : Z * Zone.t)
  : gmap Z Z * dict Zone.t :=
  let '(voxel_zone, zones_mats) := s in
  let '(i, vals) := item in
  if is_void vals then (<[i := 0%Z]> voxel_zone, zones_mats)
  else match first_match vals zones_mats with
       | Some zone => (<[i := zone]> voxel_zone, zones_mats)
       | None =>
           let z := (Z.of_nat (length zones_mats) + 1)%Z in
           (<[i := z]> voxel_zone, zones_mats ++ [(z, vals)])
       end.

Definition registered (zones : dict Zone.t) : gmap Z Z * dict Zone.t :=
  foldl register (∅, []) zones.

(** A registry numbered 1, 2, ..., in this order. *)
Definition numbered (zones_mats : dict Zone.t) : Prop :=
  dict_keys zones_mats = Z.of_nat <$> seq 1 (length zones_mats).

(** The loop variables stand for a state of [register]: the counter is
    the size of the registry, and [first] holds as long as it is empty. *)
Record sim (st : St.t) (s : gmap Z Z * dict Zone.t) : Prop := {
  sim_voxel_zone : St.voxel_zone st = s.1;
  sim_zones_mats : St.zones_mats st = s.2;
  sim_z : St.z st = Z.of_nat (length s.2);
  sim_first : St.first st = true ↔ s.2 = [];
  sim_numbered : numbered s.2;
  sim_aligned : Forall aligned s.2.*2
}.

(** ** The element test on binary64 values *)

(** The test of [np.allclose] as it is evaluated on Python floats, for
    comparing the verdicts of [within_tol] on the inputs below. *)
Definition within_tol64 (rtol atol a b : float) : bool :=
  PrimFloat.leb (PrimFloat.abs (a - b)) (atol + rtol * PrimFloat.abs b).

(** [1e-8] as a float *)
Definition f1e_8 : float := (1 / 100000000)%float.

(** ** The void rule as the specification words it *)

Definition lower_ascii (c : Ascii.ascii) : Ascii.ascii :=
  let n := Ascii.nat_of_ascii c in
  if (65 <=? n) && (n <=? 90) then Ascii.ascii_of_nat (n + 32) else c.

Fixpoint to_lower (s : string) : string :=
  match s with
  | EmptyString => EmptyString
  | String c rest => String (lower_ascii c) (to_lower rest)
  end.

(** A single material whose name is, up to case, one of the names listed
    in [void_mats]. *)
Definition spec_is_void (mat : list string) : bool :=
  match mat with
  | [name] => bool_decide (to_lower name ∈ to_lower <$> concat void_mats)
  | _ => false
  end.

(** ** Distinct compositions as the specification words them *)

(** The same composition: the same materials in the same order, each
    with volume fractions within the absolute tolerance 1e-8. *)
Definition spec_same (v1 v2 : Zone.t) : bool :=
  bool_decide (Zone.mat v1 = Zone.mat v2)
  && bool_decide (length (Zone.vol_frac v1) = length (Zone.vol_frac v2))
  && forallb (λ '(x, y), Qle_bool (Qabs (x - y)) (1 # 100000000))
             (zip (Zone.vol_frac v1) (Zone.vol_frac v2)).

(** The count of distinct non-void compositions encountered: a
    composition counts when it is not void and is the same as none of
    the compositions encountered before it. *)
Definition spec_distinct_count (comps : list Zone.t) : nat :=
  (foldl (λ '(seen, count) vals,
            if spec_is_void (Zone.mat vals) then (seen, count)
            else (seen ++ [vals],
                  if existsb (spec_same vals) seen then count
                  else S count))
         ([], 0) comps).2.

(** ** The composition of a voxel *)

(** The elements of a list in the order of their first occurrence. *)
Fixpoint first_seen (l : list string) : list string :=
  match l with
  | [] => []
  | x :: rest => x :: filter (λ y, y ≠ x) (first_seen rest)
  end.

Definition Qsum (l : list Q) : Q := foldr Qplus 0%Q l.

(** The cells and volume fractions that the discretisation records for
    the voxel [idx], in the order of the records. *)
Definition records_of (idx : Z) (dg : list dg_record) : list (Z * Q) :=
  omap (λ '(i, cell, f), if decide (i = idx) then Some (cell, f) else None) dg.

(** The materials the cells of these records resolve to. *)
Definition materials_of (mat_assigns : gmap Z string) (recs : list (Z * Q))
  : list string :=
  omap (λ '(cell, _), mat_assigns !! cell) recs.

(** The volume fractions of the records whose cell resolves to [m]. *)
Definition fractions_of (mat_assigns : gmap Z string) (m : string)
  (recs : list (Z * Q)) : list Q :=
  omap (λ '(cell, f),
          if decide (mat_assigns !! cell = Some m) then Some f else None)
       recs.

(** What the composition of a voxel is after the records [recs]: the
    materials in the order they were first seen, and under each material
    the sum of the volume fractions recorded for it. *)
Definition composition_of_records (mat_assigns : gmap Z string)
  (recs : list (Z * Q)) (zone : Zone.t) : Prop :=
  Zone.mat zone = first_seen (materials_of mat_assigns recs) ∧
  length (Zone.vol_frac zone) = length (Zone.mat zone) ∧
  ∀ j m, Zone.mat zone !! j = Some m →
    ∃ f, Zone.vol_frac zone !! j = Some f ∧
         (f == Qsum (fractions_of mat_assigns m recs))%Q.

(** [name] is what [hdf5] holds after its last slash and before the
    first dot that follows. *)
Definition base_name (hdf5 name : string) : Prop :=
  ∃ pre post,
    hdf5 = pre +:+ name +:+ post ∧
    (pre = "" ∨ ∃ dir, pre = dir +:+ "/") ∧
    (post = "" ∨ ∃ ext, post = "." +:+ ext) ∧
    str_contains "/"%char (name +:+ post) = false ∧
    str_contains "."%char name = false.

(** ** Reading the renamed compositions *)

(** The name under which [_nucid_to_xs] files the density of [nucid]:
    its entry in [nuc_names], or its numeral when it has none. *)
Definition xs_name (nuc_names : gmap Z string) (nucid : Z) : string :=
  default (pretty nucid) (nuc_names !! nucid).

(** No two nuclides of the composition go by the same name. *)
Definition distinct_names (nuc_names : gmap Z string) (comp : gmap Z Q)
  : Prop :=
  ∀ n1 n2, is_Some (comp !! n1) → is_Some (comp !! n2) →
    xs_name nuc_names n1 = xs_name nuc_names n2 → n1 = n2.

(** The material library with its references followed. *)
Definition compositions (mat_lib : gmap string ref) (h : heap)
  : gmap string (gmap Z Q) :=
  omap (λ r, h !! r) mat_lib.

(** The keys under which the pass for an axis files the number of
    intervals, the divisions and the source. *)
Definition axis_keys : list (string * (string * string * string)) :=
  [("x", ("IM", "XMESH", "SOURCX")); ("y", ("JM", "YMESH", "SOURCY"));
   ("z", ("KM", "XZMESH", "SOURCZ"))].

(** ** Concrete inputs *)

(** A mesh given by its divisions along x, y and z. *)
Definition mesh_of (xs ys zs : list Q) : Mesh :=
  {| structured_get_divisions := λ axis,
       if decide (axis = "x") then xs
       else if decide (axis = "y") then ys
       else if decide (axis = "z") then zs
       else [] |}.

(** A single cell: two division points on every axis. *)
Definition mesh_0d : Mesh := mesh_of [0; 1]%Q [0; 1]%Q [0; 1]%Q.

Definition hdf5_empty : Geometry :=
  {| discretize_geom := []; materials_to_cells := ∅;
     atom_densities := λ _, [] |}.

(** Water and steel, with one nuclide each. *)
Definition two_materials : list (string * list (Z * Q)) :=
  [("mat:water", [(10010000%Z, 3 # 1)]); ("mat:steel", [(260560000%Z, 8 # 1)])].

(** Two materials that both contain hydrogen. *)
Definition two_hydrogens : list (string * list (Z * Q)) :=
  [("mat:water", [(10010000%Z, 3 # 1)]); ("mat:poly", [(10010000%Z, 5 # 1)])].

(** One material-assignment table for the examples. *)
Definition cells_ABV : gmap Z string :=
  <[10%Z := "mat:A"]> (<[11%Z := "mat:B"]> (<[13%Z := "mat:Vacuum"]> ∅)).

(** Three voxels filled with the same material. *)
Definition dg_three_voxels : list dg_record :=
  [(0%Z, 10%Z, 1 # 1); (1%Z, 10%Z, 1 # 1); (2%Z, 10%Z, 1 # 1)].

(** Two intervals along x, nothing else. *)
Definition bounds_x2 : gmap string (list Q) := {["x" := [0; 1; 2]%Q]}.

(** Three intervals along y; x and z are not subdivided. *)
Definition mesh_y3 : Mesh := mesh_of [0; 1]%Q [0; 1; 2; 3]%Q [0; 1]%Q.

(** Two intervals along x, three along y. *)
Definition mesh_x2_y3 : Mesh := mesh_of [0; 1; 2]%Q [0; 1; 2; 3]%Q [0; 1]%Q.

(** Zone numbers for six voxels. *)
Definition six_zones : gmap Z Z :=
  list_to_map [(0, 1); (1, 0); (2, 0); (3, 2); (4, 2); (5, 0)]%Z.

(** Zone numbers for the voxels 0 and 1 only. *)
Definition two_zones : gmap Z Z := list_to_map [(0, 1); (1, 0)]%Z.

(** Compositions for the examples. *)
Definition comp_A (f : Q) : Zone.t := Zone.mk ["mat:A"] [f].
Definition comp_AB (fa fb : Q) : Zone.t := Zone.mk ["mat:A"; "mat:B"] [fa; fb].
Definition comp_vacuum : Zone.t := Zone.mk ["mat:Vacuum"] [1 # 1].

(** Six voxels: two of pure A, one of vacuum, one mixed, one of graveyard,
    and one of A again. *)
Definition zones_mixed : dict Zone.t :=
  [(0%Z, comp_A (1 # 1)); (1%Z, comp_A (1 # 1)); (2%Z, comp_vacuum);
   (3%Z, comp_AB (1 # 2) (1 # 2)); (4%Z, Zone.mk ["mat:graveyard"] [1 # 1]);
   (5%Z, comp_A (1 # 1))].

(** A vacuum spelled in capitals. *)
Definition zones_capitals : dict Zone.t :=
  [(0%Z, Zone.mk ["mat:VACUUM"] [1 # 1])].


(** Fractions 1 and 1 - 1.5e-8. *)
Definition zones_near_one : dict Zone.t :=
  [(0%Z, comp_A (1 # 1)); (1%Z, comp_A (1 - (15 # 1000000000)))].

(** Fractions 0.5, 0.5 + 0.9e-8 and 0.5 - 0.9e-8. *)
Definition zones_around_half : dict Zone.t :=
  [(0%Z, comp_A (1 # 2)); (1%Z, comp_A ((1 # 2) + (9 # 1000000000)));
   (2%Z, comp_A ((1 # 2) - (9 # 1000000000)))].

(** Fractions 0.5, 0.5 + 1.8e-8 and 0.5 + 1.2e-8. *)
Definition zones_straddling : dict Zone.t :=
  [(0%Z, comp_A (1 # 2)); (1%Z, comp_A ((1 # 2) + (18 # 1000000000)));
   (2%Z, comp_A ((1 # 2) + (12 # 1000000000)))].

(** Voxel 0 meets the cells 10, 11 and 12, of which 10 and 12 hold the
    same material; the records of voxel 1 come in between. *)
Definition cells_AB : gmap Z string :=
  <[10%Z := "mat:A"]> (<[11%Z := "mat:B"]> (<[12%Z := "mat:A"]> ∅)).

Definition dg_shared_material : list dg_record :=
  [(0%Z, 10%Z, 1 # 2); (1%Z, 11%Z, 1 # 1); (0%Z, 11%Z, 1 # 4);
   (0%Z, 12%Z, 1 # 4)].

(** Two voxels, the second in a cell that has no material. *)
Definition dg_unassigned : list dg_record :=
  [(0%Z, 10%Z, 1 # 1); (1%Z, 99%Z, 1 # 1)].

(** Four voxels along x: two of material A, two of vacuum. *)
Definition dg_four_voxels : list dg_record :=
  [(0%Z, 10%Z, 1 # 1); (1%Z, 10%Z, 1 # 1);
   (2%Z, 13%Z, 1 # 1); (3%Z, 13%Z, 1 # 1)].

Definition bounds_x4 : gmap string (list Q) :=
  {["x" := [0; 1; 2; 3; 4]%Q]}.

(** Library names for hydrogen and oxygen. *)
Definition names_H_O : gmap Z string :=
  {[10010000%Z := "h1"; 80160000%Z := "o16"]}.

(** Two isotopes of hydrogen under one library name. *)
Definition names_one_H : gmap Z string :=
  {[10010000%Z := "h"; 10020000%Z := "h"]}.

Definition water : gmap Z Q :=
  {[10010000%Z := 2 # 3; 80160000%Z := 1 # 3]}.

Definition hydrogen : gmap Z Q :=
  {[10010000%Z := 1 # 2; 10020000%Z := 1 # 4]}.

Definition lib_water : gmap string (gmap Z Q) := {["mat:water" := water]}.

Definition lib_hydrogen : gmap string (gmap Z Q) :=
  {["mat:hydrogen" := hydrogen]}.

(** Blocks in which nothing is set yet. *)
Definition no_entries : blocks :=
  {| block01 := ∅; block02 := ∅; block05 := ∅ |}.

(** Closes a goal [mat ∉ void_mats] for a concrete material list. *)
Ltac not_void :=
  let H := fresh in
  intros H; apply (bool_decide_pack _) in H; by vm_compute in H.

(** * Properties *)

(** ** The coordinate system *)

Lemma coord_sys_of_inactive (mesh : Mesh) :
  length (structured_get_divisions mesh "x") ≤ 2 →
  length (structured_get_divisions mesh "y") ≤ 2 →
  length (structured_get_divisions mesh "z") ≤ 2 →
  coord_sys_of mesh = "".
Proof.
  intros Hx Hy Hz. unfold coord_sys_of.
  by rewrite !(proj2 (Nat.ltb_ge _ _)).
Qed.

(** C8. With no active axis (at most two division points on each of x, y
    and z) [_get_coord_sys] raises: [IGEOM] was never assigned.  The
    exception leaves [write_partisn_input] while [_get_coord_sys] is the
    only function entered, so [_get_zones] is never reached, whatever the
    other arguments are. *)
Theorem get_coord_sys_no_active_axis (mesh : Mesh) (hdf5 : Geometry)
  (ngroup isn : Z) (names_dict : option (gmap Z string)) :
  length (structured_get_divisions mesh "x") ≤ 2 →
  length (structured_get_divisions mesh "y") ≤ 2 →
  length (structured_get_divisions mesh "z") ≤ 2 →
  _get_coord_sys mesh = Raise (UnboundLocalError "IGEOM") ∧
  write_partisn_input mesh hdf5 ngroup isn names_dict
    = (["_get_coord_sys"], Raise (UnboundLocalError "IGEOM")) ∧
  "_get_zones" ∉ (write_partisn_input mesh hdf5 ngroup isn names_dict).1.
Proof.
  intros Hx Hy Hz.
  assert (Hraise : _get_coord_sys mesh = Raise (UnboundLocalError "IGEOM")).
  { unfold _get_coord_sys. by rewrite coord_sys_of_inactive. }
  unfold write_partisn_input. rewrite Hraise. simpl.
  split_and!; [done..|]. by intros [=]%list_elem_of_singleton.
Qed.

Lemma get_coord_sys_no_active_axis_witness :
  _get_coord_sys mesh_0d = Raise (UnboundLocalError "IGEOM") ∧
  write_partisn_input mesh_0d hdf5_empty 1 2 None
    = (["_get_coord_sys"], Raise (UnboundLocalError "IGEOM")) ∧
  "_get_zones" ∉ (write_partisn_input mesh_0d hdf5_empty 1 2 None).1.
Proof.
  apply (get_coord_sys_no_active_axis mesh_0d hdf5_empty 1 2 None);
    simpl; lia.
Defined.

(** With an active axis [_get_coord_sys] returns, the geometry being
    named after the number of active axes. *)
Lemma get_coord_sys_active (mesh : Mesh) :
  active mesh "x" ∨ active mesh "y" ∨ active mesh "z" →
  ∃ igeom bounds,
    _get_coord_sys mesh = Ok (igeom, bounds) ∧
    igeom = match length (filter (λ axis, active mesh axis) ["x"; "y"; "z"])
            with
            | 1 => "SLAB"
            | 2 => "X-Y"
            | _ => "X-Y-Z"
            end.
Proof.
  unfold _get_coord_sys, coord_sys_of, active.
  rewrite !filter_cons, filter_nil.
  destruct (2 <? length (structured_get_divisions mesh "x")),
           (2 <? length (structured_get_divisions mesh "y")),
           (2 <? length (structured_get_divisions mesh "z"));
    simpl; intros Hactive; try (by eexists _, _);
    by destruct Hactive as [?|[?|?]].
Qed.

(** ** The material library *)

Section material_lib.
Implicit Types (h : heap) (acc : gmap Z Q) (mat_lib : gmap string ref).

Lemma heap_setitem_insert h (r : ref) acc (k : Z) (v : Q) :
  heap_setitem r k v (<[r := acc]> h) = <[r := <[k := v]> acc]> h.
Proof. unfold heap_setitem. by rewrite alter_insert_eq. Qed.

Lemma write_entries h (r : ref) acc (d : list (Z * Q)) :
  foldl (λ h '(nucid, dens), heap_setitem r nucid (dens * ten_pow_m24)%Q h)
        (<[r := acc]> h) d
  = <[r := foldl (λ acc '(nucid, dens),
                    <[nucid := (dens * ten_pow_m24)%Q]> acc) acc d]> h.
Proof.
  revert acc. induction d as [|[nucid dens] d IH]; intros acc; simpl; [done|].
  by rewrite heap_setitem_insert, IH.
Qed.

Lemma write_materials h (r : ref) (atom_dens : list (string * list (Z * Q))) :
  ∀ mat_lib acc,
    foldl (λ '(mat_lib, h) '(mat_name, atom_dens_dict),
             let h := foldl (λ h '(nucid, dens),
                               heap_setitem r nucid (dens * ten_pow_m24)%Q h)
                            h atom_dens_dict in
             (<[mat_name := r]> mat_lib, h))
          (mat_lib, <[r := acc]> h) atom_dens
    = (foldl (λ mat_lib mat_name, <[mat_name := r]> mat_lib)
             mat_lib atom_dens.*1,
       <[r := foldl (λ acc '(nucid, dens),
                       <[nucid := (dens * ten_pow_m24)%Q]> acc)
                    acc (atom_dens ≫= snd)]> h).
Proof.
  induction atom_dens as [|[mat_name d] atom_dens IH]; intros mat_lib acc;
    simpl; [done|].
  by rewrite write_entries, IH, foldl_app.
Qed.

Lemma lookup_names (r : ref) (names : list string) mat_lib (mat_name : string) :
  foldl (λ mat_lib mat_name, <[mat_name := r]> mat_lib) mat_lib names
    !! mat_name
  = if decide (mat_name ∈ names) then Some r else mat_lib !! mat_name.
Proof.
  revert mat_lib. induction names as [|n names IH]; intros mat_lib; simpl.
  - done.
  - rewrite IH. destruct (decide (mat_name ∈ names)) as [Hin|Hin].
    + by rewrite decide_True by (by right).
    + destruct (decide (mat_name = n)) as [->|Hne].
      * rewrite lookup_insert_eq. by rewrite decide_True by left.
      * rewrite lookup_insert_ne by done.
        rewrite decide_False; [done|]. by intros [?|?]%elem_of_cons.
Qed.

Lemma lookup_entries (l : list (Z * Q)) acc (nucid : Z) (v : Q) :
  foldl (λ acc '(nucid, dens), <[nucid := (dens * ten_pow_m24)%Q]> acc) acc l
    !! nucid = Some v →
  (∃ dens, (nucid, dens) ∈ l ∧ v = (dens * ten_pow_m24)%Q)
  ∨ acc !! nucid = Some v.
Proof.
  revert acc. induction l as [|[n d] l IH]; intros acc; simpl; [by right|].
  intros [(dens & Hin & ->)|Hacc]%IH.
  - left. exists dens. split; [by right|done].
  - destruct (decide (n = nucid)) as [->|Hne].
    + rewrite lookup_insert_eq in Hacc. injection Hacc as <-.
      left. exists d. split; [by left|done].
    + rewrite lookup_insert_ne in Hacc by done. by right.
Qed.

Lemma entries_defined (l : list (Z * Q)) acc (nucid : Z) (dens : Q) :
  (nucid, dens) ∈ l ∨ is_Some (acc !! nucid) →
  is_Some (foldl (λ acc '(nucid, dens),
                    <[nucid := (dens * ten_pow_m24)%Q]> acc) acc l !! nucid).
Proof.
  revert acc. induction l as [|[n d] l IH]; intros acc; simpl.
  - by intros [?%elem_of_nil|?].
  - intros [[[= <- <-]|Hin]%elem_of_cons|Hacc]; apply IH.
    + right. by rewrite lookup_insert_eq.
    + by left.
    + right. rewrite lookup_insert. case_decide; [done|]. done.
Qed.

End material_lib.

(** C10. [_get_material_lib] allocates one dictionary, [comp_list], and
    stores a reference to it under every material name.  After the loop
    that one dictionary holds the entries of all the materials written
    one over the other: its keys are the nuclides of every material, and
    the density found under a nuclide comes from some material that
    contains it.  The composition read back for any material name is this
    accumulator, not the entries of that material alone. *)
Theorem get_material_lib_shared_accumulator
  (atom_dens : list (string * list (Z * Q))) (h : heap) :
  let comp_list := fresh (dom h) in
  let acc := all_entries atom_dens in
  let '(mat_lib, h') := _get_material_lib atom_dens h in
  h !! comp_list = None ∧
  h' = <[comp_list := acc]> h ∧
  (∀ mat_name, mat_lib !! mat_name
     = if decide (mat_name ∈ atom_dens.*1) then Some comp_list else None) ∧
  (∀ mat_name, mat_name ∈ atom_dens.*1 →
     composition_of mat_lib h' mat_name = Some acc) ∧
  (∀ nucid, is_Some (acc !! nucid) ↔
     ∃ mat_name d dens, (mat_name, d) ∈ atom_dens ∧ (nucid, dens) ∈ d) ∧
  (∀ nucid v, acc !! nucid = Some v →
     ∃ mat_name d dens, (mat_name, d) ∈ atom_dens ∧ (nucid, dens) ∈ d ∧
                        v = (dens * ten_pow_m24)%Q).
Proof.
  intros comp_list acc. unfold _get_material_lib, new_dict.
  fold comp_list. rewrite write_materials. fold (all_entries atom_dens).
  fold acc.
  assert (Hfresh : h !! comp_list = None).
  { apply not_elem_of_dom. apply is_fresh. }
  assert (Hnames : ∀ mat_name,
    foldl (λ mat_lib mat_name, <[mat_name := comp_list]> mat_lib)
          (∅ : gmap string ref) atom_dens.*1 !! mat_name
    = if decide (mat_name ∈ atom_dens.*1) then Some comp_list else None).
  { intros mat_name. by rewrite lookup_names, lookup_empty. }
  split_and!; [done..| | |].
  - intros mat_name Hin. unfold composition_of.
    rewrite Hnames, decide_True by done. simpl.
    by rewrite lookup_insert_eq.
  - intros nucid. split.
    + intros [v Hv]. apply lookup_entries in Hv as [(dens & Hin & _)|Hv].
      * apply list_elem_of_bind in Hin as ([mat_name d] & Hd & Hm).
        by exists mat_name, d, dens.
      * by rewrite lookup_empty in Hv.
    + intros (mat_name & d & dens & Hm & Hd).
      apply (entries_defined _ _ _ dens). left.
      apply list_elem_of_bind. by exists (mat_name, d).
  - intros nucid v [(dens & Hin & ->)|Hv]%lookup_entries.
    + apply list_elem_of_bind in Hin as ([mat_name d] & Hd & Hm).
      by exists mat_name, d, dens.
    + by rewrite lookup_empty in Hv.
Qed.

(** The steel nuclide appears in the composition returned for water. *)
Example water_contains_iron :
  let '(mat_lib, h) := _get_material_lib two_materials ∅ in
  (composition_of mat_lib h "mat:water" ≫= lookup 260560000%Z)
  = Some ((8 # 1) * ten_pow_m24)%Q.
Proof. vm_compute. reflexivity. Qed.

(** The hydrogen density of the material written last is the one read
    back for both. *)
Example last_hydrogen_wins :
  let '(mat_lib, h) := _get_material_lib two_hydrogens ∅ in
  (composition_of mat_lib h "mat:water" ≫= lookup 10010000%Z)
  = Some ((5 # 1) * ten_pow_m24)%Q ∧
  (composition_of mat_lib h "mat:poly" ≫= lookup 10010000%Z)
  = Some ((5 # 1) * ten_pow_m24)%Q.
Proof. vm_compute. split; reflexivity. Qed.

(** ** Dictionaries *)

Section dict.
Context {V : Type}.
Implicit Types (d : dict V) (k : Z) (v : V).

Lemma dict_get_set d k k' v :
  dict_get k (dict_set k' v d)
  = if decide (k = k') then Some v else dict_get k d.
Proof.
  induction d as [|[k'' v''] d IH]; simpl.
  - case_decide as Hk; [by rewrite (proj2 (Z.eqb_eq _ _))|].
    by rewrite (proj2 (Z.eqb_neq _ _)).
  - destruct (k' <? k'')%Z eqn:Hlt; [|destruct (k' =? k'')%Z eqn:Heq]; simpl.
    + case_decide as Hk; [by rewrite (proj2 (Z.eqb_eq _ _))|].
      by rewrite (proj2 (Z.eqb_neq k k')).
    + apply Z.eqb_eq in Heq as <-.
      case_decide as Hk; [by rewrite (proj2 (Z.eqb_eq _ _))|].
      by rewrite (proj2 (Z.eqb_neq k k')).
    + rewrite IH. apply Z.eqb_neq in Heq.
      destruct (k =? k'')%Z eqn:Hk''; [|done].
      apply Z.eqb_eq in Hk'' as ->. by rewrite decide_False.
Qed.

Lemma dict_keys_set d k v :
  ∀ k', k' ∈ dict_keys (dict_set k v d) ↔ k' = k ∨ k' ∈ dict_keys d.
Proof.
  unfold dict_keys. intros k'.
  induction d as [|[k'' v''] d IH]; simpl.
  - rewrite list_elem_of_singleton, elem_of_nil. tauto.
  - destruct (k <? k'')%Z eqn:Hlt; [|destruct (k =? k'')%Z eqn:Heq]; simpl.
    + by rewrite elem_of_cons.
    + apply Z.eqb_eq in Heq as <-. rewrite !elem_of_cons. tauto.
    + rewrite !elem_of_cons, IH. tauto.
Qed.

Lemma dict_set_sorted d k v :
  StronglySorted Z.lt (dict_keys d) →
  StronglySorted Z.lt (dict_keys (dict_set k v d)).
Proof.
  unfold dict_keys. induction d as [|[k' v'] d IH]; simpl.
  - intros _. by repeat constructor.
  - intros [Hd Hk']%StronglySorted_inv.
    destruct (k <? k')%Z eqn:Hlt; [|destruct (k =? k')%Z eqn:Heq]; simpl.
    + apply Z.ltb_lt in Hlt. constructor; [by constructor|].
      constructor; [done|]. eapply Forall_impl; [done|]. simpl. lia.
    + apply Z.eqb_eq in Heq as <-. by constructor.
    + apply Z.ltb_ge in Hlt. apply Z.eqb_neq in Heq.
      constructor; [by apply IH|]. apply Forall_forall.
      intros k'' [->|Hin]%(dict_keys_set d k v); [lia|].
      rewrite Forall_forall in Hk'. by apply Hk'.
Qed.

Lemma dict_sorted_NoDup d :
  StronglySorted Z.lt (dict_keys d) → NoDup (dict_keys d).
Proof.
  unfold dict_keys. induction 1 as [|k ks _ IH Hk]; constructor; [|done].
  intros Hin. rewrite Forall_forall in Hk. specialize (Hk k Hin). lia.
Qed.

Lemma dict_get_elem_of d k v :
  NoDup (dict_keys d) → dict_get k d = Some v ↔ (k, v) ∈ d.
Proof.
  unfold dict_keys. induction d as [|[k' v'] d IH]; simpl.
  - intros _. split; [done|]. by intros ?%elem_of_nil.
  - intros [Hk' Hd]%NoDup_cons. rewrite elem_of_cons.
    destruct (k =? k')%Z eqn:Hk.
    + apply Z.eqb_eq in Hk as ->. split; [intros [= ->]; by left|].
      intros [[= ->]|Hin]; [done|]. exfalso. apply Hk'.
      apply list_elem_of_fmap. by exists (k', v).
    + apply Z.eqb_neq in Hk. rewrite IH by done.
      split; [by right|]. by intros [[= -> ->]|?].
Qed.

Lemma dict_get_keys d k : is_Some (dict_get k d) ↔ k ∈ dict_keys d.
Proof.
  unfold dict_keys. induction d as [|[k' v'] d IH]; simpl.
  - split; [by intros [? [=]]|]. by intros ?%elem_of_nil.
  - rewrite elem_of_cons. destruct (k =? k')%Z eqn:Hk.
    + apply Z.eqb_eq in Hk as ->. split; [by left|by eexists].
    + apply Z.eqb_neq in Hk. rewrite IH. split; [by right|].
      by intros [?|?].
Qed.

End dict.

(** ** Grouping the records by voxel *)

Lemma group_voxels_snoc (dg : list dg_record) (idx cell : Z) (f : Q) :
  group_voxels (dg ++ [(idx, cell, f)])
  = let v := default (Voxel.mk [] []) (dict_get idx (group_voxels dg)) in
    dict_set idx (Voxel.mk (Voxel.cell v ++ [cell]) (Voxel.vol_frac v ++ [f]))
             (group_voxels dg).
Proof. unfold group_voxels. by rewrite foldl_snoc. Qed.

Lemma records_of_snoc (idx : Z) (dg : list dg_record) (i cell : Z) (f : Q) :
  records_of idx (dg ++ [(i, cell, f)])
  = records_of idx dg ++ (if decide (i = idx) then [(cell, f)] else []).
Proof.
  unfold records_of. rewrite omap_app. simpl. by case_decide.
Qed.

Lemma group_voxels_sorted (dg : list dg_record) :
  StronglySorted Z.lt (dict_keys (group_voxels dg)).
Proof.
  induction dg as [|[[idx cell] f] dg IH] using rev_ind; [constructor|].
  rewrite group_voxels_snoc. by apply dict_set_sorted.
Qed.

(** [voxel[idx]] lists the cells and the volume fractions of the records
    of the voxel [idx], in their order. *)
Lemma group_voxels_get (dg : list dg_record) (idx : Z) :
  dict_get idx (group_voxels dg)
  = match records_of idx dg with
    | [] => None
    | recs => Some (Voxel.mk recs.*1 recs.*2)
    end.
Proof.
  induction dg as [|[[i cell] f] dg IH] using rev_ind; [done|].
  rewrite group_voxels_snoc, records_of_snoc. simpl.
  rewrite dict_get_set. destruct (decide (idx = i)) as [->|Hne].
  - rewrite decide_True by done. rewrite IH.
    destruct (records_of i dg) as [|r recs]; simpl; [done|].
    by rewrite !fmap_app.
  - rewrite decide_False by done. by rewrite app_nil_r.
Qed.

Lemma records_of_elem_of (idx : Z) (dg : list dg_record) (cell : Z) (f : Q) :
  (cell, f) ∈ records_of idx dg ↔ (idx, cell, f) ∈ dg.
Proof.
  unfold records_of. rewrite list_elem_of_omap. split.
  - intros ([[i c] f'] & Hin & Hsome). case_decide; [|done].
    by simplify_eq.
  - intros Hin. exists (idx, cell, f). split; [done|].
    by rewrite decide_True.
Qed.

Lemma group_voxels_keys (dg : list dg_record) (idx : Z) :
  idx ∈ dict_keys (group_voxels dg) ↔ ∃ cell f, (idx, cell, f) ∈ dg.
Proof.
  rewrite <- dict_get_keys, group_voxels_get. split.
  - destruct (records_of idx dg) as [|[cell f] recs] eqn:Hrecs;
      [by intros [? [=]]|].
    intros _. exists cell, f. apply records_of_elem_of. rewrite Hrecs. by left.
  - intros (cell & f & Hin%records_of_elem_of).
    destruct (records_of idx dg); [by apply elem_of_nil in Hin|by eexists].
Qed.

(** ** Merging the materials of a voxel *)

Lemma first_seen_elem_of (l : list string) (x : string) :
  x ∈ first_seen l ↔ x ∈ l.
Proof.
  induction l as [|y l IH]; simpl; [done|].
  rewrite !elem_of_cons, list_elem_of_filter, IH.
  split; [intros [?|[_ ?]]; [by left|by right]|].
  intros [?|?]; [by left|]. destruct (decide (x = y)); [by left|by right].
Qed.

Lemma first_seen_NoDup (l : list string) : NoDup (first_seen l).
Proof.
  induction l as [|y l IH]; simpl; constructor.
  - rewrite list_elem_of_filter. by intros [? _].
  - by apply NoDup_filter.
Qed.

Lemma first_seen_snoc (l : list string) (x : string) :
  first_seen (l ++ [x])
  = if decide (x ∈ l) then first_seen l else first_seen l ++ [x].
Proof.
  induction l as [|y l IH]; simpl.
  - done.
  - rewrite IH. destruct (decide (x = y)) as [->|Hne].
    + rewrite (decide_True (P := y ∈ y :: l)) by left.
      case_decide; [done|].
      rewrite filter_app, filter_cons_False by (intros H'; by apply H').
      by rewrite filter_nil, app_nil_r.
    + destruct (decide (x ∈ l)) as [Hin|Hin].
      * by rewrite decide_True by (by right).
      * rewrite decide_False by (by intros [?|?]%elem_of_cons).
        rewrite filter_app, filter_cons_True by done. done.
Qed.

Lemma Qsum_snoc (l : list Q) (f : Q) : (Qsum (l ++ [f]) == Qsum l + f)%Q.
Proof.
  induction l as [|x l IH]; simpl; [ring|]. rewrite IH. ring.
Qed.

Lemma materials_of_snoc (mat_assigns : gmap Z string) (recs : list (Z * Q))
  (cell : Z) (f : Q) (m : string) :
  mat_assigns !! cell = Some m →
  materials_of mat_assigns (recs ++ [(cell, f)])
  = materials_of mat_assigns recs ++ [m].
Proof.
  intros Hm. unfold materials_of. rewrite omap_app. simpl. by rewrite Hm.
Qed.

Lemma fractions_of_snoc (mat_assigns : gmap Z string) (m' : string)
  (recs : list (Z * Q)) (cell : Z) (f : Q) (m : string) :
  mat_assigns !! cell = Some m →
  fractions_of mat_assigns m' (recs ++ [(cell, f)])
  = fractions_of mat_assigns m' recs ++ (if decide (m = m') then [f] else []).
Proof.
  intros Hm. unfold fractions_of. rewrite omap_app. simpl. rewrite Hm.
  destruct (decide (m = m')) as [->|Hne].
  - by rewrite decide_True.
  - by rewrite decide_False by congruence.
Qed.

Lemma fractions_of_absent (mat_assigns : gmap Z string) (m : string)
  (recs : list (Z * Q)) :
  m ∉ materials_of mat_assigns recs → fractions_of mat_assigns m recs = [].
Proof.
  unfold materials_of, fractions_of.
  induction recs as [|[cell f] recs IH]; simpl; [done|].
  destruct (mat_assigns !! cell) as [m'|] eqn:Hcell; simpl.
  - intros [Hne Hin]%not_elem_of_cons.
    rewrite decide_False by congruence. by apply IH.
  - intros Hin. by apply IH.
Qed.

(** The positions from [s] on, which hold the materials [l], are visited
    once each: [f] is added where the material is [m]. *)
Lemma add_at_from (m : string) (f : Q) (l : list string) :
  ∀ (s : nat) (vol_frac : list Q),
    s + length l ≤ length vol_frac →
    ∃ vol_frac',
      for_ (zip (seq s (length l)) l) (add_at m (Ok f)) vol_frac
        = Ok vol_frac' ∧
      length vol_frac' = length vol_frac ∧
      ∀ j old, vol_frac !! j = Some old →
        vol_frac' !! j
        = Some (if decide (s ≤ j ∧ l !! (j - s) = Some m)
                then (old + f)%Q else old).
Proof.
  induction l as [|val l IH]; intros s vol_frac Hlen; simpl in *.
  - exists vol_frac. split_and!; [done..|]. intros j old ->.
    rewrite decide_False; [done|]. by intros [_ ?].
  - destruct (decide (m = val)) as [<-|Hne].
    + destruct (lookup_lt_is_Some_2 vol_frac s) as [old Hold]; [lia|].
      unfold getitem. rewrite Hold. simpl.
      destruct (IH (S s) (<[s := (old + f)%Q]> vol_frac))
        as (vol_frac' & -> & Hlen' & Hlook); [rewrite length_insert; lia|].
      exists vol_frac'. rewrite length_insert in Hlen'.
      split_and!; [done..|]. intros j old' Hj.
      destruct (decide (j = s)) as [->|Hjs].
      * rewrite (Hlook s (old + f)%Q)
          by (rewrite list_lookup_insert_eq by lia; done).
        rewrite decide_False by lia. rewrite Nat.sub_diag. simpl.
        rewrite decide_True by done. congruence.
      * rewrite (Hlook j old') by (by rewrite list_lookup_insert_ne).
        f_equal. destruct (decide (s ≤ j)) as [Hle|Hgt].
        -- replace (j - s) with (S (j - S s)) by lia. simpl.
           apply decide_ext. split; (intros [? ?]; split; [lia|done]).
        -- apply decide_ext. split; intros [? ?]; lia.
    + destruct (IH (S s) vol_frac) as (vol_frac' & -> & Hlen' & Hlook); [lia|].
      exists vol_frac'. split_and!; [done..|]. intros j old Hj.
      rewrite (Hlook j old) by done. f_equal.
      destruct (decide (j = s)) as [->|Hjs].
      * rewrite Nat.sub_diag. simpl.
        rewrite !decide_False; [done|intros [_ [=]]; congruence|lia].
      * destruct (decide (s ≤ j)) as [Hle|Hgt].
        -- replace (j - s) with (S (j - S s)) by lia. simpl.
           apply decide_ext. split; (intros [? ?]; split; [lia|done]).
        -- apply decide_ext. split; intros [? ?]; lia.
Qed.

Lemma add_to_existing_lookup (m : string) (f : Q) (mats : list string)
  (vol_frac : list Q) :
  length vol_frac = length mats →
  ∃ vol_frac',
    add_to_existing m (Ok f) mats vol_frac = Ok vol_frac' ∧
    length vol_frac' = length vol_frac ∧
    ∀ j m' old, mats !! j = Some m' → vol_frac !! j = Some old →
      vol_frac' !! j = Some (if decide (m' = m) then (old + f)%Q else old).
Proof.
  intros Hlen. unfold add_to_existing, enumerate.
  destruct (add_at_from m f mats 0 vol_frac)
    as (vol_frac' & -> & Hlen' & Hlook); [lia|].
  exists vol_frac'. split_and!; [done..|]. intros j m' old Hm' Hold.
  rewrite (Hlook j old Hold), Nat.sub_0_r, Hm'. f_equal.
  apply decide_ext. split; [by intros [_ [= ->]]|]. intros ->. split; [lia|done].
Qed.

Section merge_cells.
Context (mat_assigns : gmap Z string).

Lemma composition_of_records_nil :
  composition_of_records mat_assigns [] (Zone.mk [] []).
Proof. by split_and!. Qed.

(** One record more. *)
Lemma merge_cell_record (v : Voxel.t) (recs : list (Z * Q)) (zone : Zone.t)
  (i : nat) (cell : Z) (f : Q) (m : string) :
  composition_of_records mat_assigns recs zone →
  mat_assigns !! cell = Some m →
  Voxel.vol_frac v !! i = Some f →
  ∃ zone', merge_cell mat_assigns v (i, cell) zone = Ok zone' ∧
           composition_of_records mat_assigns (recs ++ [(cell, f)]) zone'.
Proof.
  intros (Hmat & Hlen & Hsum) Hm Hf.
  unfold merge_cell, mat_of, getitem. rewrite Hm, Hf. simpl.
  case_bool_decide as Hnew.
  - (* create new entry *)
    eexists. split; [done|]. split_and!; simpl.
    + rewrite (materials_of_snoc _ _ _ _ m), first_seen_snoc by done.
      rewrite decide_False; [by rewrite Hmat|].
      by rewrite <- first_seen_elem_of, <- Hmat.
    + rewrite !length_app. simpl. lia.
    + intros j m' Hj. rewrite (fractions_of_snoc _ _ _ _ _ m) by done.
      apply lookup_app_Some in Hj as [Hj|[Hge Hj]].
      * destruct (Hsum j m' Hj) as (f0 & Hf0 & Heq).
        exists f0. split; [by apply lookup_app_l_Some|].
        rewrite decide_False, app_nil_r; [done|].
        intros <-. apply Hnew. by eapply list_elem_of_lookup_2.
      * apply list_lookup_singleton_Some in Hj as [Hj <-].
        exists f. split.
        -- rewrite lookup_app_r by lia.
           by replace (j - length (Zone.vol_frac zone)) with 0 by lia.
        -- rewrite decide_True by done.
           rewrite fractions_of_absent; [simpl; ring|].
           by rewrite <- first_seen_elem_of, <- Hmat.
  - (* update value that already exists with new volume fraction *)
    destruct (add_to_existing_lookup m f (Zone.mat zone) (Zone.vol_frac zone))
      as (vol_frac' & -> & Hlen' & Hlook); [done|]. simpl.
    eexists. split; [done|]. split_and!; simpl.
    + rewrite (materials_of_snoc _ _ _ _ m), first_seen_snoc by done.
      rewrite decide_True; [done|].
      by rewrite <- first_seen_elem_of, <- Hmat.
    + congruence.
    + intros j m' Hj. rewrite (fractions_of_snoc _ _ _ _ _ m) by done.
      destruct (Hsum j m' Hj) as (f0 & Hf0 & Heq).
      rewrite (Hlook j m' f0) by done. eexists. split; [done|].
      destruct (decide (m' = m)) as [->|Hne].
      * rewrite decide_True by done. by rewrite Qsum_snoc, Heq.
      * rewrite decide_False, app_nil_r by done. done.
Qed.

#[local] Arguments merge_cell : simpl never.

(** The records [recs], which follow the records [seen]. *)
Lemma merge_cells_from (v : Voxel.t) (recs : list (Z * Q)) :
  ∀ (seen : list (Z * Q)) (zone : Zone.t),
    Voxel.vol_frac v = (seen ++ recs).*2 →
    composition_of_records mat_assigns seen zone →
    (∀ cell f, (cell, f) ∈ recs → is_Some (mat_assigns !! cell)) →
    ∃ zone',
      for_ (zip (seq (length seen) (length recs)) recs.*1)
           (merge_cell mat_assigns v) zone = Ok zone' ∧
      composition_of_records mat_assigns (seen ++ recs) zone'.
Proof.
  induction recs as [|[cell f] recs IH]; intros seen zone Hv Hzone Hcells;
    simpl.
  - exists zone. by rewrite app_nil_r.
  - destruct (Hcells cell f) as [m Hm]; [by left|].
    destruct (merge_cell_record v seen zone (length seen) cell f m)
      as (zone1 & -> & Hzone1); [done..| |].
    { rewrite Hv, fmap_app. simpl.
      rewrite lookup_app_r by (by rewrite length_fmap).
      by rewrite length_fmap, Nat.sub_diag. }
    destruct (IH (seen ++ [(cell, f)]) zone1) as (zone' & Hfor & Hzone').
    + by rewrite <- app_assoc.
    + done.
    + intros c f' Hin. apply (Hcells c f'). by right.
    + rewrite length_app in Hfor. simpl in Hfor.
      rewrite Nat.add_1_r in Hfor. rewrite <- app_assoc in Hzone'.
      by exists zone'.
Qed.

Lemma merge_cells_records (recs : list (Z * Q)) :
  (∀ cell f, (cell, f) ∈ recs → is_Some (mat_assigns !! cell)) →
  ∃ zone, merge_cells mat_assigns (Voxel.mk recs.*1 recs.*2) = Ok zone ∧
          composition_of_records mat_assigns recs zone.
Proof.
  intros Hcells. unfold merge_cells, enumerate. simpl.
  rewrite length_fmap.
  by apply (merge_cells_from _ recs []); [|apply composition_of_records_nil|].
Qed.

End merge_cells.

(** ** Merging the materials of every voxel *)

Section merge_materials.
Context (mat_assigns : gmap Z string) (voxel : dict Voxel.t).

Lemma merge_voxels_from (ks : list Z) :
  ∀ acc : dict Zone.t,
    StronglySorted Z.lt (dict_keys acc) →
    (∀ k, k ∈ ks → ∃ v info, dict_get k voxel = Some v ∧
                             merge_cells mat_assigns v = Ok info) →
    ∃ zones,
      for_ ks (merge_voxel mat_assigns voxel) acc = Ok zones ∧
      StronglySorted Z.lt (dict_keys zones) ∧
      (∀ k, k ∈ dict_keys zones ↔ k ∈ ks ∨ k ∈ dict_keys acc) ∧
      (∀ k info, dict_get k zones = Some info →
         (∃ v, k ∈ ks ∧ dict_get k voxel = Some v ∧
               merge_cells mat_assigns v = Ok info)
         ∨ dict_get k acc = Some info).
Proof.
  induction ks as [|k0 ks IH]; intros acc Hsorted Hks; simpl.
  - exists acc. split_and!; [done..| |].
    + intros k. rewrite elem_of_nil. tauto.
    + intros k info Hk. by right.
  - destruct (Hks k0) as (v0 & info0 & Hv0 & Hinfo0); [by left|].
    unfold merge_voxel at 1, dict_getitem. rewrite Hv0. simpl.
    rewrite Hinfo0. simpl.
    destruct (IH (dict_set k0 info0 acc)) as (zones & -> & Hs & Hdom & Hget).
    + by apply dict_set_sorted.
    + intros k Hk. apply Hks. by right.
    + exists zones. split_and!; [done..| |].
      * intros k. rewrite Hdom, dict_keys_set, elem_of_cons. tauto.
      * intros k info [(v & Hk & Hv & Hinfo)|Hacc]%Hget.
        -- left. exists v. split; [by right|done].
        -- rewrite dict_get_set in Hacc. case_decide as Hk; [|by right].
           injection Hacc as <-. subst k. left. exists v0.
           split; [by left|done].
Qed.

End merge_materials.

(** The merge returns, for exactly the voxels of the records, the
    composition of their records. *)
Lemma merge_materials_records (dg : list dg_record)
  (mat_assigns : gmap Z string) :
  (∀ idx cell f, (idx, cell, f) ∈ dg → is_Some (mat_assigns !! cell)) →
  ∃ zones,
    merge_materials mat_assigns (group_voxels dg) = Ok zones ∧
    NoDup (dict_keys zones) ∧
    (∀ idx, idx ∈ dict_keys zones ↔ ∃ cell f, (idx, cell, f) ∈ dg) ∧
    ∀ idx info, (idx, info) ∈ zones →
      composition_of_records mat_assigns (records_of idx dg) info.
Proof.
  intros Hcells.
  assert (Hmerge : ∀ idx v, dict_get idx (group_voxels dg) = Some v →
    ∃ info, merge_cells mat_assigns v = Ok info ∧
            composition_of_records mat_assigns (records_of idx dg) info).
  { intros idx v. rewrite group_voxels_get.
    destruct (records_of idx dg) as [|r recs] eqn:Hrecs; [done|].
    intros [= <-]. apply (merge_cells_records mat_assigns (r :: recs)).
    intros cell f Hin. rewrite <- Hrecs in Hin.
    apply records_of_elem_of in Hin. by eapply Hcells. }
  destruct (merge_voxels_from mat_assigns (group_voxels dg)
              (dict_keys (group_voxels dg)) [])
    as (zones & Hzones & Hsorted & Hdom & Hget); [constructor| |].
  { intros k [v Hv]%dict_get_keys.
    destruct (Hmerge k v Hv) as (info & Hinfo & _). by exists v, info. }
  exists zones. pose proof (dict_sorted_NoDup _ Hsorted) as Hnodup.
  split_and!; [done..| |].
  - intros idx. rewrite Hdom, group_voxels_keys, elem_of_nil. tauto.
  - intros idx info Hin%dict_get_elem_of; [|done].
    apply Hget in Hin as [(v & _ & Hv & Hinfo)|[=]].
    destruct (Hmerge idx v Hv) as (info' & Hinfo' & Hcomp).
    by assert (info' = info) as -> by congruence.
Qed.

(** C9.  When every recorded cell has a material, the merge returns a
    composition for exactly the voxels that occur in the records.  In the
    composition of a voxel every material occurs once, in the order in
    which the records of the voxel first show it, each with one volume
    fraction: the sum of the volume fractions of the records of the voxel
    whose cell resolves to that material. *)
Theorem merged_composition (dg : list dg_record)
  (mat_assigns : gmap Z string) :
  (∀ idx cell f, (idx, cell, f) ∈ dg → is_Some (mat_assigns !! cell)) →
  ∃ zones,
    merge_materials mat_assigns (group_voxels dg) = Ok zones ∧
    NoDup (dict_keys zones) ∧
    (∀ idx, idx ∈ dict_keys zones ↔ ∃ cell f, (idx, cell, f) ∈ dg) ∧
    ∀ idx info, (idx, info) ∈ zones →
      NoDup (Zone.mat info) ∧
      Zone.mat info
      = first_seen (materials_of mat_assigns (records_of idx dg)) ∧
      length (Zone.vol_frac info) = length (Zone.mat info) ∧
      ∀ j m, Zone.mat info !! j = Some m →
        ∃ f, Zone.vol_frac info !! j = Some f ∧
             (f == Qsum (fractions_of mat_assigns m (records_of idx dg)))%Q.
Proof.
  intros Hcells.
  destruct (merge_materials_records dg mat_assigns Hcells)
    as (zones & Hzones & Hnodup & Hdom & Hcomp).
  exists zones. split_and!; [done..|]. intros idx info Hin.
  destruct (Hcomp idx info Hin) as (Hmat & Hlen & Hsum).
  split_and!; [|done..]. rewrite Hmat. apply first_seen_NoDup.
Qed.

Lemma merged_composition_witness :
  ∃ zones,
    merge_materials cells_AB (group_voxels dg_shared_material) = Ok zones ∧
    ∀ info, (0%Z, info) ∈ zones →
      Zone.mat info = ["mat:A"; "mat:B"] ∧
      ∃ f, Zone.vol_frac info !! 0 = Some f ∧ (f == 3 # 4)%Q.
Proof.
  destruct (merged_composition dg_shared_material cells_AB)
    as (zones & Hzones & _ & _ & Hcomp).
  - intros idx cell f Hin.
    repeat (apply elem_of_cons in Hin as [[= -> -> ->]|Hin]; [by eexists|]).
    by apply elem_of_nil in Hin.
  - exists zones. split; [done|]. intros info Hin.
    destruct (Hcomp 0%Z info Hin) as (_ & Hmat & _ & Hsum).
    split; [done|]. destruct (Hsum 0 "mat:A") as (f & Hf & Heq).
    { by rewrite Hmat. }
    exists f. split; [done|]. by rewrite Heq.
Defined.

(** The compositions handed to the deduplication have distinct voxel
    numbers and aligned lists. *)
Lemma merged_zones_aligned (dg : list dg_record) (mat_assigns : gmap Z string)
  (zones : dict Zone.t) :
  (∀ idx cell f, (idx, cell, f) ∈ dg → is_Some (mat_assigns !! cell)) →
  merge_materials mat_assigns (group_voxels dg) = Ok zones →
  NoDup (dict_keys zones) ∧ Forall aligned zones.*2.
Proof.
  intros Hcells Hzones.
  destruct (merge_materials_records dg mat_assigns Hcells)
    as (zones' & Hzones' & Hnodup & _ & Hcomp).
  assert (zones' = zones) as -> by congruence. split; [done|].
  apply Forall_forall. intros info ([idx info'] & -> & Hin)%list_elem_of_fmap.
  destruct (Hcomp idx info' Hin) as (_ & Hlen & _). by unfold aligned.
Qed.


(** ** The deduplication loop *)

(** The loop of [_get_zones] carries the flags [match] and [first] and
    the variable [y] from one voxel to the next.  It is first shown to
    compute what [register] computes, a linear search of the registry
    followed by an insertion; the properties of the zone numbers are then
    derived for [registered]. *)

Lemma dict_set_last {V : Type} (k : Z) (v : V) (d : dict V) :
  Forall (λ k', (k' < k)%Z) (dict_keys d) → dict_set k v d = d ++ [(k, v)].
Proof.
  induction d as [|[k' v'] d IH]; simpl; [done|].
  intros [Hk' Hd]%Forall_cons.
  rewrite (proj2 (Z.ltb_ge _ _)), (proj2 (Z.eqb_neq _ _)) by lia.
  by rewrite IH.
Qed.

Lemma numbered_below (zones_mats : dict Zone.t) :
  numbered zones_mats →
  Forall (λ k, (1 ≤ k ≤ Z.of_nat (length zones_mats))%Z) (dict_keys zones_mats).
Proof.
  unfold numbered. intros ->. apply Forall_forall.
  intros k (n & -> & Hn%elem_of_seq)%list_elem_of_fmap. lia.
Qed.

Lemma numbered_snoc (zones_mats : dict Zone.t) (vals : Zone.t) :
  numbered zones_mats →
  numbered (zones_mats ++ [((Z.of_nat (length zones_mats) + 1)%Z, vals)]).
Proof.
  unfold numbered, dict_keys. intros Hn.
  rewrite fmap_app, length_app, Hn. simpl.
  rewrite seq_app, fmap_app. simpl. do 3 f_equal. lia.
Qed.

Lemma same_zone_close (vals info : Zone.t) :
  aligned vals → aligned info → same_zone vals info = Ok (close vals info).
Proof.
  unfold aligned, same_zone, close, np_allclose, np_broadcast.
  intros Hvals Hinfo. case_bool_decide as Hmat; [|done].
  rewrite decide_True by congruence. done.
Qed.

Lemma scan_first_match (vals : Zone.t) (zones_mats : dict Zone.t)
  (match_ : bool) (y : option Z) :
  aligned vals → Forall aligned zones_mats.*2 →
  scan vals zones_mats match_ y
  = Ok (match first_match vals zones_mats with
        | Some zone => (true, Some zone)
        | None => (match zones_mats with [] => match_ | _ => false end, y)
        end).
Proof.
  intros Hvals. revert match_.
  induction zones_mats as [|[zone info] rest IH]; intros match_; simpl;
    [done|].
  intros [Hinfo Hrest]%Forall_cons. simpl in Hinfo.
  rewrite same_zone_close by done. simpl.
  destruct (close vals info); [done|].
  rewrite IH by done. destruct (first_match vals rest); [done|].
  by destruct rest.
Qed.

Lemma sim_init : sim dedup_init (∅, []).
Proof. by split. Qed.

Lemma assign_zone_register (item : Z * Zone.t) (st : St.t)
  (s : gmap Z Z * dict Zone.t) :
  sim st s → aligned item.2 →
  ∃ st', assign_zone item st = Ok st' ∧ sim st' (register s item).
Proof.
  destruct item as [i vals], s as [voxel_zone zones_mats].
  intros [Hvz Hzm Hz Hfirst Hnum Hal] Hvals. simpl in *.
  unfold assign_zone, iteritems. rewrite Hzm, scan_first_match by done.
  simpl. unfold register, is_void. rewrite Hvz, Hz.
  destruct (first_match vals zones_mats) as [zone|] eqn:Hmatch.
  - (* a registered zone matches, so the registry is not empty *)
    assert (St.first st = false) as ->.
    { destruct (St.first st); [|done].
      rewrite (proj1 Hfirst eq_refl) in Hmatch. done. }
    simpl. case_bool_decide; eexists; (split; [done|]);
      (split; simpl; try done; split; [done|by intros ->]).
  - assert (St.first st || negb (match zones_mats with
                                 | [] => St.match_ st
                                 | _ => false
                                 end) = true) as ->.
    { destruct zones_mats; [|by rewrite orb_true_r].
      by rewrite (proj2 Hfirst eq_refl). }
    case_bool_decide; eexists; (split; [done|]); split; simpl; try done.
    + rewrite dict_set_last; [done|].
      eapply Forall_impl; [by apply numbered_below|]. simpl. lia.
    + rewrite length_app. simpl. lia.
    + split; [done|]. by intros [_ [=]]%app_nil.
    + by apply numbered_snoc.
    + rewrite fmap_app. apply Forall_app. split; [done|]. by constructor.
Qed.

Lemma for_assign_zone_register (zones : dict Zone.t) :
  ∀ (st : St.t) (s : gmap Z Z * dict Zone.t),
    sim st s → Forall aligned zones.*2 →
    ∃ st', for_ zones assign_zone st = Ok st' ∧ sim st' (foldl register s zones).
Proof.
  induction zones as [|item zones IH]; intros st s Hsim Hal; simpl.
  - by exists st.
  - apply Forall_cons in Hal as [Hitem Hal].
    destruct (assign_zone_register item st s) as (st' & -> & Hsim');
      [done..|].
    by apply IH.
Qed.

(** The loop of [_get_zones] computes what [register] computes. *)
Lemma assign_zones_registered (zones : dict Zone.t) :
  Forall aligned zones.*2 →
  ∃ st, assign_zones zones = Ok st ∧
        St.voxel_zone st = (registered zones).1 ∧
        St.zones_mats st = (registered zones).2 ∧
        St.z st = Z.of_nat (length (registered zones).2).
Proof.
  intros Hal.
  destruct (for_assign_zone_register zones dedup_init (∅, []) sim_init Hal)
    as (st & Hst & [Hvz Hzm Hz _ _ _]).
  by exists st.
Qed.

(** ** The registry *)

Lemma within_tol_refl (x : Q) : within_tol rtol_1e_8 np_default_atol x x = true.
Proof.
  unfold within_tol, rtol_1e_8, np_default_atol.
  apply Qle_bool_iff, Qabs_Qle_condition.
  pose proof (Qabs_nonneg x). split; lra.
Qed.

Lemma close_refl (vals : Zone.t) : close vals vals = true.
Proof.
  unfold close. rewrite bool_decide_eq_true_2 by done. simpl.
  induction (Zone.vol_frac vals) as [|x l IH]; simpl; [done|].
  by rewrite within_tol_refl.
Qed.

Lemma close_mat (vals info : Zone.t) :
  close vals info = true → Zone.mat vals = Zone.mat info.
Proof.
  unfold close. intros [Hmat _]%andb_prop. by apply bool_decide_eq_true in Hmat.
Qed.

Section first_match.
Context (vals : Zone.t).
Implicit Types (zones_mats : dict Zone.t).

Lemma first_match_app zones_mats zones_mats' :
  first_match vals (zones_mats ++ zones_mats')
  = match first_match vals zones_mats with
    | Some zone => Some zone
    | None => first_match vals zones_mats'
    end.
Proof.
  induction zones_mats as [|[zone info] rest IH]; simpl; [done|].
  by destruct (close vals info).
Qed.

Lemma first_match_None zones_mats :
  first_match vals zones_mats = None ↔
  ∀ zone info, (zone, info) ∈ zones_mats → close vals info = false.
Proof.
  induction zones_mats as [|[zone info] rest IH]; simpl.
  - split; [|done]. by intros _ ?? ?%elem_of_nil.
  - destruct (close vals info) eqn:Hclose.
    + split; [done|]. intros Hall. rewrite (Hall zone info) in Hclose; [done|].
      by left.
    + rewrite IH. split.
      * intros Hall z i [[= -> ->]|Hin]%elem_of_cons; [done|]. by eapply Hall.
      * intros Hall z i Hin. eapply Hall. by right.
Qed.

Lemma first_match_Some zones_mats zone :
  first_match vals zones_mats = Some zone →
  ∃ n info, zones_mats !! n = Some (zone, info) ∧ close vals info = true ∧
            first_match vals (take n zones_mats) = None.
Proof.
  induction zones_mats as [|[zone' info] rest IH]; simpl; [done|].
  destruct (close vals info) eqn:Hclose.
  - intros [= ->]. by exists 0, info.
  - intros (n & info' & Hn & Hc & Htake)%IH.
    exists (S n), info'. simpl. by rewrite Hclose.
Qed.

End first_match.

Lemma registered_snoc (zones : dict Zone.t) (item : Z * Zone.t) :
  registered (zones ++ [item]) = register (registered zones) item.
Proof. unfold registered. by rewrite foldl_snoc. Qed.

(** What one step does to the registry and to the zone numbers. *)
Lemma register_cases (s : gmap Z Z * dict Zone.t) (i : Z) (vals : Zone.t) :
  ∃ zone : Z,
    (register s (i, vals)).1 = <[i := zone]> s.1 ∧
    ((is_void vals = true ∧ zone = 0%Z ∧ (register s (i, vals)).2 = s.2)
     ∨ (is_void vals = false ∧ first_match vals s.2 = Some zone ∧
        (register s (i, vals)).2 = s.2)
     ∨ (is_void vals = false ∧ first_match vals s.2 = None ∧
        zone = (Z.of_nat (length s.2) + 1)%Z ∧
        (register s (i, vals)).2 = s.2 ++ [(zone, vals)])).
Proof.
  destruct s as [voxel_zone zones_mats]. simpl.
  destruct (is_void vals) eqn:Hvoid.
  - exists 0%Z. split; [done|]. by left.
  - destruct (first_match vals zones_mats) as [zone|] eqn:Hmatch.
    + exists zone. split; [done|]. right. by left.
    + eexists. split; [done|]. right. by right.
Qed.

Section registered.
Implicit Types (zones : dict Zone.t).

Lemma registered_numbered zones : numbered (registered zones).2.
Proof.
  induction zones as [|[i vals] zones IH] using rev_ind; [done|].
  rewrite registered_snoc.
  destruct (register_cases (registered zones) i vals)
    as (zone & _ & [(_ & _ & ->)|[(_ & _ & ->)|(_ & _ & -> & ->)]]);
    [done..|].
  by apply numbered_snoc.
Qed.

Lemma registered_not_void zones (zone : Z) (info : Zone.t) :
  (zone, info) ∈ (registered zones).2 → is_void info = false.
Proof.
  induction zones as [|[i vals] zones IH] using rev_ind;
    [by intros ?%elem_of_nil|].
  rewrite registered_snoc.
  destruct (register_cases (registered zones) i vals)
    as (z & _ & [(_ & _ & ->)|[(_ & _ & ->)|(Hvoid & _ & _ & ->)]]);
    [done..|].
  intros [Hin|[= _ ->]%list_elem_of_singleton]%elem_of_app; [by apply IH|done].
Qed.

Lemma registered_dom zones (i : Z) :
  is_Some ((registered zones).1 !! i) ↔ i ∈ dict_keys zones.
Proof.
  unfold dict_keys.
  induction zones as [|[i' vals] zones IH] using rev_ind.
  - simpl. rewrite lookup_empty. split; [by intros [? [=]]|].
    by intros ?%elem_of_nil.
  - rewrite registered_snoc, fmap_app, elem_of_app. simpl.
    destruct (register_cases (registered zones) i' vals) as (z & -> & _).
    rewrite lookup_insert_is_Some, <- IH, list_elem_of_singleton.
    destruct (decide (i' = i)) as [->|Hne]; [by split; [right|left]|].
    split; [intros [?|[_ ?]]; [done|by left]|].
    intros [?|?]; [by right|congruence].
Qed.

(** Registering more voxels leaves the zones registered so far in
    place. *)
Lemma registered_app_prefix zones zones' :
  ∃ more, (registered (zones ++ zones')).2 = (registered zones).2 ++ more.
Proof.
  induction zones' as [|[i vals] zones' [more IH]] using rev_ind.
  - exists []. by rewrite !app_nil_r.
  - rewrite app_assoc, registered_snoc.
    destruct (register_cases (registered (zones ++ zones')) i vals)
      as (z & _ & [(_ & _ & ->)|[(_ & _ & ->)|(_ & _ & _ & ->)]]);
      [by exists more..|].
    eexists. by rewrite IH, <- app_assoc.
Qed.

Lemma registered_app_lookup zones zones' (i : Z) :
  i ∉ dict_keys zones' →
  (registered (zones ++ zones')).1 !! i = (registered zones).1 !! i.
Proof.
  unfold dict_keys.
  induction zones' as [|[i' vals] zones' IH] using rev_ind; intros Hi.
  - by rewrite app_nil_r.
  - rewrite fmap_app, not_elem_of_app in Hi. destruct Hi as [Hi Hi'].
    rewrite app_assoc, registered_snoc.
    destruct (register_cases (registered (zones ++ zones')) i' vals)
      as (z & -> & _).
    rewrite lookup_insert_ne; [by apply IH|].
    intros ->. apply Hi'. simpl. by left.
Qed.

(** A composition that has a zone number keeps it when zones are
    appended to the registry. *)
Lemma zone_number_app (vals : Zone.t) (zones_mats more : dict Zone.t) :
  is_Some (zone_number vals zones_mats) →
  zone_number vals (zones_mats ++ more) = zone_number vals zones_mats.
Proof.
  unfold zone_number. destruct (is_void vals); [done|].
  intros [zone Hzone]. by rewrite first_match_app, Hzone.
Qed.

(** Every voxel has the number of the first zone of the final registry
    that its composition is close to, or 0 when it is void. *)
Lemma registered_zone_number zones (i : Z) (vals : Zone.t) :
  NoDup (dict_keys zones) → (i, vals) ∈ zones →
  (registered zones).1 !! i = zone_number vals (registered zones).2 ∧
  is_Some (zone_number vals (registered zones).2).
Proof.
  unfold dict_keys.
  induction zones as [|[i' vals'] zones IH] using rev_ind;
    [by intros _ ?%elem_of_nil|].
  rewrite fmap_app, NoDup_app. simpl. intros (Hnd & Hnew & _).
  rewrite registered_snoc.
  intros [Hin|[= -> ->]%list_elem_of_singleton]%elem_of_app.
  - destruct (IH Hnd Hin) as [Hlook Hsome].
    assert (i ≠ i') as Hne.
    { intros ->. eapply Hnew; [|by left].
      apply list_elem_of_fmap. by exists (i', vals). }
    destruct (register_cases (registered zones) i' vals')
      as (z & -> & [(_ & _ & ->)|[(_ & _ & ->)|(_ & _ & _ & ->)]]);
      rewrite lookup_insert_ne by done; [done..|].
    by rewrite zone_number_app.
  - destruct (register_cases (registered zones) i' vals')
      as (z & -> & [(Hv & -> & ->)|[(Hv & Hm & ->)|(Hv & Hm & _ & ->)]]);
      rewrite lookup_insert_eq; unfold zone_number; rewrite Hv;
      [done| by rewrite Hm |].
    rewrite first_match_app, Hm. simpl. by rewrite close_refl.
Qed.

(** Every registered zone is the composition of a voxel that carries its
    number. *)
Lemma registered_used zones (zone : Z) (info : Zone.t) :
  NoDup (dict_keys zones) → (zone, info) ∈ (registered zones).2 →
  ∃ i, (i, info) ∈ zones ∧ (registered zones).1 !! i = Some zone.
Proof.
  unfold dict_keys.
  induction zones as [|[i' vals'] zones IH] using rev_ind;
    [by intros _ ?%elem_of_nil|].
  rewrite fmap_app, NoDup_app. simpl. intros (Hnd & Hnew & _).
  rewrite registered_snoc.
  destruct (register_cases (registered zones) i' vals')
    as (z & -> & Hcases).
  assert (Hold : (zone, info) ∈ (registered zones).2 →
    ∃ i, (i, info) ∈ zones ++ [(i', vals')] ∧
         <[i' := z]> (registered zones).1 !! i = Some zone).
  { intros (i & Hin & Hi)%IH; [|done]. exists i.
    split; [apply elem_of_app; by left|].
    rewrite lookup_insert_ne; [done|]. intros <-. eapply Hnew; [|by left].
    apply list_elem_of_fmap. by exists (i', info). }
  destruct Hcases as [(_ & _ & ->)|[(_ & _ & ->)|(_ & _ & _ & ->)]];
    [done..|].
  intros [Hin|[= -> ->]%list_elem_of_singleton]%elem_of_app; [by apply Hold|].
  exists i'. split; [apply elem_of_app; right; by left|].
  by rewrite lookup_insert_eq.
Qed.

(** A registered zone is close to none of the zones registered before
    it. *)
Lemma registered_first zones (n : nat) (zone : Z) (info : Zone.t) :
  (registered zones).2 !! n = Some (zone, info) →
  first_match info (take n (registered zones).2) = None.
Proof.
  induction zones as [|[i vals] zones IH] using rev_ind; [done|].
  rewrite registered_snoc.
  destruct (register_cases (registered zones) i vals)
    as (z & _ & [(_ & _ & ->)|[(_ & _ & ->)|(_ & Hm & _ & ->)]]);
    [done..|].
  intros Hn. destruct (decide (n < length (registered zones).2)) as [Hlt|Hge].
  - rewrite lookup_app_l in Hn by done.
    rewrite take_app_le by lia. by apply IH.
  - assert (n = length (registered zones).2) as ->.
    { apply lookup_lt_Some in Hn. rewrite length_app in Hn. simpl in Hn. lia. }
    rewrite list_lookup_middle in Hn by done. injection Hn as <- <-.
    by rewrite take_app_length.
Qed.

End registered.

Lemma numbered_lookup (zones_mats : dict Zone.t) (n : nat) (zone : Z)
  (info : Zone.t) :
  numbered zones_mats → zones_mats !! n = Some (zone, info) →
  zone = (Z.of_nat n + 1)%Z.
Proof.
  unfold numbered, dict_keys. intros Hnum Hn.
  assert (zones_mats.*1 !! n = Some zone) as Hkey
    by (by rewrite list_lookup_fmap, Hn).
  rewrite Hnum, list_lookup_fmap in Hkey.
  destruct (seq 1 (length zones_mats) !! n) as [m|] eqn:Hm; [|done].
  apply lookup_seq in Hm as [-> _]. injection Hkey as <-. lia.
Qed.

Lemma numbered_elem_of (zones_mats : dict Zone.t) (zone : Z) (info : Zone.t) :
  numbered zones_mats → (zone, info) ∈ zones_mats →
  (1 ≤ zone ≤ Z.of_nat (length zones_mats))%Z ∧
  zones_mats !! Z.to_nat (zone - 1) = Some (zone, info).
Proof.
  intros Hnum [n Hn]%list_elem_of_lookup.
  pose proof (numbered_lookup _ _ _ _ Hnum Hn) as ->.
  apply lookup_lt_Some in Hn as Hlt.
  split; [lia|]. by replace (Z.to_nat (Z.of_nat n + 1 - 1)) with n by lia.
Qed.

Lemma numbered_lookup_zone (zones_mats : dict Zone.t) (zone : Z) :
  numbered zones_mats → (1 ≤ zone ≤ Z.of_nat (length zones_mats))%Z →
  ∃ info, zones_mats !! Z.to_nat (zone - 1) = Some (zone, info).
Proof.
  intros Hnum Hzone.
  destruct (lookup_lt_is_Some_2 zones_mats (Z.to_nat (zone - 1)))
    as [[zone' info] Hn]; [lia|].
  pose proof (numbered_lookup _ _ _ _ Hnum Hn) as ->.
  exists info. rewrite Hn. do 2 f_equal. lia.
Qed.

(** ** Zone numbers *)

Section zone_numbers.
Context (zones : dict Zone.t).
Context (Hkeys : NoDup (dict_keys zones)) (Haligned : Forall aligned zones.*2).

Lemma is_void_mat (vals : Zone.t) :
  is_void vals = false ↔ Zone.mat vals ∉ void_mats.
Proof. unfold is_void. by rewrite bool_decide_eq_false. Qed.

Lemma zones_aligned (i : Z) (vals : Zone.t) : (i, vals) ∈ zones → aligned vals.
Proof.
  intros Hin. rewrite Forall_forall in Haligned. apply Haligned.
  apply list_elem_of_fmap. by exists (i, vals).
Qed.

Lemma registered_aligned (zone : Z) (info : Zone.t) :
  (zone, info) ∈ (registered zones).2 → aligned info.
Proof.
  intros (i & Hin & _)%registered_used; [|done]. by eapply zones_aligned.
Qed.

Lemma registered_unique (zone : Z) (info info' : Zone.t) :
  (zone, info) ∈ (registered zones).2 → (zone, info') ∈ (registered zones).2 →
  info = info'.
Proof.
  intros [_ H1]%numbered_elem_of [_ H2]%numbered_elem_of;
    try apply registered_numbered.
  congruence.
Qed.

(** The zone number of a voxel that is not void: the first registered
    zone its composition is close to. *)
Lemma voxel_zone_first_match (i : Z) (vals : Zone.t) :
  (i, vals) ∈ zones → Zone.mat vals ∉ void_mats →
  ∃ zone, (registered zones).1 !! i = Some zone ∧
          first_match vals (registered zones).2 = Some zone.
Proof.
  intros Hin Hvoid%is_void_mat.
  destruct (registered_zone_number zones i vals Hkeys Hin) as [Hi [zone Hz]].
  exists zone. rewrite Hi, Hz. split; [done|].
  unfold zone_number in Hz. by rewrite Hvoid in Hz.
Qed.

Lemma first_match_registered (vals : Zone.t) (zone : Z) :
  first_match vals (registered zones).2 = Some zone →
  ∃ info, (zone, info) ∈ (registered zones).2 ∧ close vals info = true ∧
          (1 ≤ zone ≤ Z.of_nat (length (registered zones).2))%Z.
Proof.
  intros (n & info & Hn & Hclose & _)%first_match_Some.
  exists info. assert ((zone, info) ∈ (registered zones).2) as Hin
    by (by eapply list_elem_of_lookup_2).
  do 2 (split; [done|]).
  eapply numbered_elem_of; [apply registered_numbered|done].
Qed.

(** The composition registered for a zone has that zone as its first
    match. *)
Lemma first_match_representative (zone : Z) (info : Zone.t) :
  (zone, info) ∈ (registered zones).2 →
  first_match info (registered zones).2 = Some zone.
Proof.
  intros [_ Hn]%numbered_elem_of; [|apply registered_numbered].
  pose proof (registered_first _ _ _ _ Hn) as Hfirst.
  rewrite <- (take_drop_middle _ _ _ Hn) at 1.
  rewrite first_match_app, Hfirst. simpl. by rewrite close_refl.
Qed.

End zone_numbers.

(** C1, as the code has it.  Every voxel receives exactly one zone
    number, and the number is 0 exactly when the material list of the
    voxel is one of the four lists of [void_mats]: a single material named
    [mat:Vacuum], [mat:vacuum], [mat:graveyard] or [mat:Graveyard], in
    this spelling.  No such composition is ever registered as a zone. *)
Theorem zone_0_iff_listed_void (zones : dict Zone.t) :
  NoDup (dict_keys zones) → Forall aligned zones.*2 →
  ∃ st, assign_zones zones = Ok st ∧
        (∀ i, is_Some (St.voxel_zone st !! i) ↔ i ∈ dict_keys zones) ∧
        (∀ i vals, (i, vals) ∈ zones →
           ∃ zone, St.voxel_zone st !! i = Some zone ∧
                   (zone = 0%Z ↔ Zone.mat vals ∈ void_mats)) ∧
        (∀ zone info, (zone, info) ∈ St.zones_mats st →
           (Zone.mat info ∉ void_mats) ∧ zone ≠ 0%Z).
Proof.
  intros Hkeys Haligned.
  destruct (assign_zones_registered zones Haligned)
    as (st & Hst & Hvz & Hzm & _).
  exists st. rewrite Hvz, Hzm. split_and!; [done| | |].
  - apply registered_dom.
  - intros i vals Hin.
    destruct (decide (Zone.mat vals ∈ void_mats)) as [Hvoid|Hvoid].
    + exists 0%Z. split; [|done].
      destruct (registered_zone_number zones i vals Hkeys Hin) as [-> _].
      unfold zone_number, is_void. by rewrite bool_decide_eq_true_2.
    + destruct (voxel_zone_first_match zones Hkeys i vals Hin Hvoid)
        as (zone & Hi & Hm).
      destruct (first_match_registered zones vals zone Hm) as (_ & _ & _ & Hz).
      exists zone. split; [done|]. split; [lia|done].
  - intros zone info Hin. split.
    + by eapply is_void_mat, registered_not_void.
    + apply numbered_elem_of in Hin as [? _]; [lia|apply registered_numbered].
Qed.

Lemma zone_0_iff_listed_void_witness :
  ∃ st, assign_zones zones_mixed = Ok st ∧
        St.voxel_zone st !! 2%Z = Some 0%Z ∧
        (∃ zone, St.voxel_zone st !! 3%Z = Some zone ∧ zone ≠ 0%Z).
Proof.
  destruct (zone_0_iff_listed_void zones_mixed)
    as (st & Hst & _ & Hzone & _).
  - apply (bool_decide_unpack _). by vm_compute.
  - repeat constructor.
  - exists st. split; [done|]. split.
    + destruct (Hzone 2%Z comp_vacuum) as (zone & -> & Hz).
      { do 2 right. by left. }
      f_equal. apply Hz. by left.
    + destruct (Hzone 3%Z (comp_AB (1 # 2) (1 # 2))) as (zone & -> & Hz).
      { do 3 right. by left. }
      exists zone. split; [done|]. intros Hz0%Hz.
      apply (bool_decide_pack _) in Hz0. by vm_compute in Hz0.
Defined.

(** C1 fails as stated: a single material whose name is a sentinel name
    in capitals is void for the specification, and the code registers it
    as zone 1. *)
Lemma capital_vacuum_is_a_zone :
  spec_is_void ["mat:VACUUM"] = true ∧
  ∃ st, assign_zones zones_capitals = Ok st ∧
        St.voxel_zone st !! 0%Z = Some 1%Z ∧
        St.zones_mats st = [(1%Z, Zone.mk ["mat:VACUUM"] [1 # 1])].
Proof. split; [done|]. eexists. by vm_compute. Qed.

(** ** Closeness *)

Lemma within_tol_spec (a b : Q) :
  within_tol rtol_1e_8 np_default_atol a b = true ↔
  (Qabs (a - b) <= (1 # 100000000) + (1 # 100000000) * Qabs b)%Q.
Proof. unfold within_tol. apply Qle_bool_iff. Qed.

Lemma close_within (vals info : Zone.t) :
  Zone.mat vals = Zone.mat info →
  Forall2 (λ a b, (Qabs (a - b) <= 1 # 100000000)%Q)
          (Zone.vol_frac vals) (Zone.vol_frac info) →
  close vals info = true.
Proof.
  unfold close. intros -> Hall. rewrite bool_decide_eq_true_2 by done. simpl.
  induction Hall as [|a b l1 l2 Hab _ IH]; simpl; [done|].
  rewrite IH, andb_true_r. apply within_tol_spec.
  pose proof (Qabs_nonneg b). lra.
Qed.

(** C2, as the code has it.  Two voxels that are not void receive
    different zone numbers when their material lists differ, and when
    the composition of one fails the closeness test of the code (equal
    material lists and [|a - b| <= 1e-8 + 1e-8 * |b|] in every position,
    [b] being the registered fraction) against the composition
    registered for the zone of the other.  The zone of a voxel is decided
    against the registered compositions, never against another voxel. *)
Theorem far_compositions_get_different_zones (zones : dict Zone.t) :
  NoDup (dict_keys zones) → Forall aligned zones.*2 →
  ∃ st, assign_zones zones = Ok st ∧
        ∀ i1 v1 i2 v2 zone1 zone2,
          (i1, v1) ∈ zones → (i2, v2) ∈ zones →
          Zone.mat v1 ∉ void_mats → Zone.mat v2 ∉ void_mats →
          St.voxel_zone st !! i1 = Some zone1 →
          St.voxel_zone st !! i2 = Some zone2 →
          (Zone.mat v1 ≠ Zone.mat v2 → zone1 ≠ zone2) ∧
          (∀ info, (zone1, info) ∈ St.zones_mats st →
                   close v2 info = false → zone1 ≠ zone2).
Proof.
  intros Hkeys Haligned.
  destruct (assign_zones_registered zones Haligned)
    as (st & Hst & Hvz & Hzm & _).
  exists st. rewrite Hvz, Hzm. split; [done|].
  intros i1 v1 i2 v2 zone1 zone2 Hin1 Hin2 Hv1 Hv2 Hz1 Hz2.
  destruct (voxel_zone_first_match zones Hkeys i1 v1 Hin1 Hv1)
    as (z1 & Hz1' & Hm1).
  destruct (voxel_zone_first_match zones Hkeys i2 v2 Hin2 Hv2)
    as (z2 & Hz2' & Hm2).
  assert (z1 = zone1) as -> by congruence.
  assert (z2 = zone2) as -> by congruence.
  destruct (first_match_registered zones v1 zone1 Hm1)
    as (info1 & Hinfo1 & Hclose1 & _).
  destruct (first_match_registered zones v2 zone2 Hm2)
    as (info2 & Hinfo2 & Hclose2 & _).
  split.
  - intros Hmat <-.
    rewrite (registered_unique zones _ _ _ Hinfo2 Hinfo1) in Hclose2.
    apply close_mat in Hclose1, Hclose2. congruence.
  - intros info Hinfo Hfar <-.
    rewrite (registered_unique zones _ _ _ Hinfo2 Hinfo) in Hclose2.
    congruence.
Qed.

(** Pure A against a mixture of A and B: the material lists differ.
    Fractions 0.5 and 0.5 + 1.8e-8 of A: the second fails the test
    against the first, which is registered for zone 1. *)
Lemma far_compositions_get_different_zones_witness :
  (∃ st, assign_zones zones_mixed = Ok st ∧
         ∀ zone1 zone2,
           St.voxel_zone st !! 0%Z = Some zone1 →
           St.voxel_zone st !! 3%Z = Some zone2 →
           zone1 ≠ zone2) ∧
  (∃ st, assign_zones zones_straddling = Ok st ∧
         ∀ zone1 zone2,
           St.voxel_zone st !! 0%Z = Some zone1 →
           St.voxel_zone st !! 1%Z = Some zone2 →
           zone1 ≠ zone2).
Proof.
  split.
  - destruct (far_compositions_get_different_zones zones_mixed)
      as (st & Hst & Hfar).
    + apply (bool_decide_unpack _). by vm_compute.
    + repeat constructor.
    + exists st. split; [done|]. intros zone1 zone2 Hz1 Hz2.
      destruct (Hfar 0%Z (comp_A (1 # 1)) 3%Z (comp_AB (1 # 2) (1 # 2))
                  zone1 zone2) as (Hmat & _); [| |not_void|not_void|done..|].
      * by left.
      * do 3 right. by left.
      * by apply Hmat.
  - destruct (far_compositions_get_different_zones zones_straddling)
      as (st & Hst & Hfar).
    + apply (bool_decide_unpack _). by vm_compute.
    + repeat constructor.
    + exists st. split; [done|]. intros zone1 zone2 Hz1 Hz2.
      destruct (Hfar 0%Z (comp_A (1 # 2))
                  1%Z (comp_A ((1 # 2) + (18 # 1000000000)))
                  zone1 zone2) as (_ & Hinfo);
        [| |not_void|not_void|done..|].
      * by left.
      * right. by left.
      * apply (Hinfo (comp_A (1 # 2))); [|by vm_compute].
        vm_compute in Hst. injection Hst as <-.
        vm_compute in Hz1. injection Hz1 as <-. by left.
Defined.

(** C2 fails as stated.  Fractions 1 and 1 - 1.5e-8 differ by more than
    1e-8 and share zone 1, because the tolerance of the code at 1 is
    2e-8; fractions 0.5 + 0.9e-8 and 0.5 - 0.9e-8 differ by 1.8e-8 and
    share zone 1, because each is within tolerance of the fraction 0.5
    registered for that zone. *)
Lemma fractions_apart_share_a_zone :
  (∃ st, assign_zones zones_near_one = Ok st ∧
         St.voxel_zone st !! 0%Z = Some 1%Z ∧
         St.voxel_zone st !! 1%Z = Some 1%Z) ∧
  ((1 # 100000000) < Qabs (1 - (1 - (15 # 1000000000))))%Q ∧
  (∃ st, assign_zones zones_around_half = Ok st ∧
         St.voxel_zone st !! 1%Z = Some 1%Z ∧
         St.voxel_zone st !! 2%Z = Some 1%Z) ∧
  ((1 # 100000000)
   < Qabs ((1 # 2) + (9 # 1000000000) - ((1 # 2) - (9 # 1000000000))))%Q.
Proof.
  split_and!; [eexists; by vm_compute|done|eexists; by vm_compute|done].
Qed.

(** C3, as the code has it.  Two voxels that are not void and have the
    same material list receive the same zone number when their volume
    fractions are equal.  When the first has the composition registered
    for a zone and every fraction of the second is within 1e-8 of the
    corresponding fraction of the first, both receive the number of that
    zone provided the second is close to no zone registered earlier. *)
Theorem equal_or_represented_compositions_share_zone (zones : dict Zone.t) :
  NoDup (dict_keys zones) → Forall aligned zones.*2 →
  ∃ st, assign_zones zones = Ok st ∧
        ∀ i1 v1 i2 v2,
          (i1, v1) ∈ zones → (i2, v2) ∈ zones →
          Zone.mat v1 ∉ void_mats → Zone.mat v2 ∉ void_mats →
          Zone.mat v1 = Zone.mat v2 →
          (Zone.vol_frac v1 = Zone.vol_frac v2 →
           St.voxel_zone st !! i1 = St.voxel_zone st !! i2) ∧
          (∀ zone,
             (zone, v1) ∈ St.zones_mats st →
             Forall2 (λ a b, (Qabs (a - b) <= 1 # 100000000)%Q)
                     (Zone.vol_frac v2) (Zone.vol_frac v1) →
             (∀ zone' info, (zone', info) ∈ St.zones_mats st →
                            (zone' < zone)%Z → close v2 info = false) →
             St.voxel_zone st !! i1 = Some zone ∧
             St.voxel_zone st !! i2 = Some zone).
Proof.
  intros Hkeys Haligned.
  destruct (assign_zones_registered zones Haligned)
    as (st & Hst & Hvz & Hzm & _).
  exists st. rewrite Hvz, Hzm. split; [done|].
  intros i1 v1 i2 v2 Hin1 Hin2 Hv1 Hv2 Hmat.
  destruct (voxel_zone_first_match zones Hkeys i1 v1 Hin1 Hv1)
    as (zone1 & Hz1 & Hm1).
  destruct (voxel_zone_first_match zones Hkeys i2 v2 Hin2 Hv2)
    as (zone2 & Hz2 & Hm2).
  split.
  - intros Hfrac. assert (v1 = v2) as <-.
    { destruct v1, v2. simpl in *. congruence. }
    congruence.
  - intros zone Hrep Hwithin Hearlier.
    pose proof (first_match_representative zones _ _ Hrep) as Hm1'.
    assert (zone1 = zone) as -> by congruence. split; [done|].
    rewrite Hz2. f_equal.
    apply numbered_elem_of in Hrep as [_ Hn]; [|apply registered_numbered].
    rewrite <- (take_drop_middle _ _ _ Hn), first_match_app in Hm2.
    assert (first_match v2 (take (Z.to_nat (zone - 1)) (registered zones).2)
            = None) as Hnone.
    { apply first_match_None. intros zone' info [m Hm]%list_elem_of_lookup.
      apply lookup_take_Some in Hm as [Hm Hlt].
      pose proof (numbered_lookup _ _ _ _ (registered_numbered zones) Hm)
        as Hzone'.
      apply lookup_lt_Some in Hn.
      apply (Hearlier zone').
      - by eapply list_elem_of_lookup_2.
      - lia. }
    rewrite Hnone in Hm2. simpl in Hm2.
    rewrite close_within in Hm2 by done. congruence.
Qed.

Lemma equal_or_represented_compositions_share_zone_witness :
  ∃ st, assign_zones zones_mixed = Ok st ∧
        St.voxel_zone st !! 0%Z = St.voxel_zone st !! 5%Z.
Proof.
  destruct (equal_or_represented_compositions_share_zone zones_mixed)
    as (st & Hst & Hsame).
  - apply (bool_decide_unpack _). by vm_compute.
  - repeat constructor.
  - exists st. split; [done|].
    destruct (Hsame 0%Z (comp_A (1 # 1)) 5%Z (comp_A (1 # 1)))
      as (Hequal & _); [| |not_void|not_void|done|].
    + by left.
    + do 5 right. by left.
    + by apply Hequal.
Defined.

(** C3 fails as stated.  The fractions 0.5 + 1.8e-8 and 0.5 + 1.2e-8 of
    the voxels 1 and 2 are within 1e-8 of each other, and the voxels
    receive the zones 2 and 1: only the second is within tolerance of the
    fraction 0.5 registered for zone 1. *)
Lemma close_fractions_in_different_zones :
  (Qabs ((1 # 2) + (18 # 1000000000) - ((1 # 2) + (12 # 1000000000)))
   <= 1 # 100000000)%Q ∧
  ∃ st, assign_zones zones_straddling = Ok st ∧
        St.voxel_zone st !! 1%Z = Some 2%Z ∧
        St.voxel_zone st !! 2%Z = Some 1%Z.
Proof. split; [done|]. eexists. by vm_compute. Qed.

(** On binary64 values the tests of the three examples above have the
    outcomes they have on the rationals. *)
Example near_one_binary64 :
  let a := (1 - 15 / 1000000000)%float in
  within_tol64 f1e_8 f1e_8 a 1 = true ∧
  PrimFloat.ltb f1e_8 (PrimFloat.abs (1 - a)) = true.
Proof. by vm_compute. Qed.

Example around_half_binary64 :
  let a := (0.5 + 9 / 1000000000)%float in
  let b := (0.5 - 9 / 1000000000)%float in
  within_tol64 f1e_8 f1e_8 a 0.5 = true ∧
  within_tol64 f1e_8 f1e_8 b 0.5 = true ∧
  PrimFloat.ltb f1e_8 (PrimFloat.abs (a - b)) = true.
Proof. by vm_compute. Qed.

Example straddling_binary64 :
  let a := (0.5 + 18 / 1000000000)%float in
  let b := (0.5 + 12 / 1000000000)%float in
  within_tol64 f1e_8 f1e_8 a 0.5 = false ∧
  within_tol64 f1e_8 f1e_8 b 0.5 = true ∧
  PrimFloat.leb (PrimFloat.abs (a - b)) f1e_8 = true.
Proof. by vm_compute. Qed.

(** C7, as the code has it.  The registry is numbered 1, ..., Z without
    gaps, Z being the number of registered zones and the value of the
    counter [z].  Every zone number is 0 or one of 1, ..., Z, and each
    of 1, ..., Z is the number of some voxel.  A voxel that is not void
    is compared with the zones registered by the voxels before it: when
    it fails the closeness test of the code against every one of them,
    it receives their count plus one, and its composition is registered
    under that number; when it passes the test against one of them, it
    receives one of their numbers. *)
Theorem zone_numbers_contiguous (zones : dict Zone.t) :
  NoDup (dict_keys zones) → Forall aligned zones.*2 →
  ∃ st, assign_zones zones = Ok st ∧
        let nzone := length (St.zones_mats st) in
        dict_keys (St.zones_mats st) = Z.of_nat <$> seq 1 nzone ∧
        St.z st = Z.of_nat nzone ∧
        (∀ i zone, St.voxel_zone st !! i = Some zone →
                   (0 ≤ zone ≤ Z.of_nat nzone)%Z) ∧
        (∀ zone, (1 ≤ zone ≤ Z.of_nat nzone)%Z →
                 ∃ i, St.voxel_zone st !! i = Some zone) ∧
        (∀ before i vals after,
           zones = before ++ (i, vals) :: after →
           Zone.mat vals ∉ void_mats →
           ∃ st0, assign_zones before = Ok st0 ∧
             (St.z st0 ≤ St.z st)%Z ∧
             ((∀ zone info, (zone, info) ∈ St.zones_mats st0 →
                            close vals info = false) →
              St.voxel_zone st !! i = Some (St.z st0 + 1)%Z ∧
              St.zones_mats st !! Z.to_nat (St.z st0)
              = Some ((St.z st0 + 1)%Z, vals)) ∧
             (∀ zone info, (zone, info) ∈ St.zones_mats st0 →
                           close vals info = true →
                ∃ zone', St.voxel_zone st !! i = Some zone' ∧
                         (1 ≤ zone' ≤ St.z st0)%Z)).
Proof.
  intros Hkeys Haligned.
  destruct (assign_zones_registered zones Haligned)
    as (st & Hst & Hvz & Hzm & Hz).
  exists st. rewrite Hvz, Hzm, Hz. split; [done|].
  pose proof (registered_numbered zones) as Hnum.
  simpl. split_and!; [done..| | |].
  - intros i zone Hi.
    assert (i ∈ dict_keys zones) as ([i' vals] & -> & Hin)%list_elem_of_fmap
      by (by apply registered_dom).
    simpl in Hi.
    destruct (registered_zone_number zones i' vals Hkeys Hin) as [Hi' _].
    rewrite Hi in Hi'. symmetry in Hi'. unfold zone_number in Hi'.
    destruct (is_void vals); [injection Hi' as <-; lia|].
    apply first_match_registered in Hi' as (_ & _ & _ & ?). lia.
  - intros zone Hzone.
    destruct (numbered_lookup_zone _ zone Hnum Hzone) as [info Hinfo].
    apply list_elem_of_lookup_2 in Hinfo.
    destruct (registered_used zones zone info Hkeys Hinfo) as (i & _ & Hi).
    by exists i.
  - intros before i vals after -> Hvoid%is_void_mat.
    assert (Forall aligned before.*2) as Hbefore.
    { rewrite fmap_app in Haligned. by apply Forall_app in Haligned as [? _]. }
    destruct (assign_zones_registered before Hbefore)
      as (st0 & Hst0 & _ & Hzm0 & Hz0).
    exists st0. rewrite Hzm0, Hz0. split; [done|].
    (* the registry after [before], after the voxel [i], and at the end *)
    change (before ++ (i, vals) :: after)
      with (before ++ [(i, vals)] ++ after) in *.
    rewrite app_assoc in *.
    assert (i ∉ dict_keys after) as Hi.
    { unfold dict_keys in *. rewrite !fmap_app in Hkeys.
      apply NoDup_app in Hkeys as (_ & Hnew & _). apply Hnew.
      apply elem_of_app. right. by left. }
    rewrite (registered_app_lookup _ _ _ Hi).
    destruct (registered_app_prefix (before ++ [(i, vals)]) after)
      as [more ->].
    rewrite registered_snoc.
    destruct (register_cases (registered before) i vals)
      as (z & -> & [(Hv & _)|[(_ & Hsome & ->)|(_ & Hnone & -> & ->)]]);
      [congruence| |]; rewrite lookup_insert_eq.
    + split_and!.
      * rewrite length_app. lia.
      * intros Hnew%first_match_None. congruence.
      * intros _ _ _ _. exists z. split; [done|].
        apply first_match_registered in Hsome as (_ & _ & _ & ?). lia.
    + split_and!.
      * rewrite !length_app. lia.
      * intros _. split; [done|]. rewrite Nat2Z.id, <- app_assoc. simpl.
        by rewrite list_lookup_middle.
      * intros zone info Hin Hclose.
        rewrite first_match_None in Hnone.
        by rewrite (Hnone zone info Hin) in Hclose.
Qed.

Lemma zone_numbers_contiguous_witness :
  ∃ st, assign_zones zones_mixed = Ok st ∧
        dict_keys (St.zones_mats st) = [1; 2]%Z ∧
        St.z st = 2%Z ∧
        St.voxel_zone st !! 3%Z = Some 2%Z ∧
        St.zones_mats st !! 1 = Some (2%Z, comp_AB (1 # 2) (1 # 2)).
Proof.
  destruct (zone_numbers_contiguous zones_mixed)
    as (st & Hst & Hzm & Hz & _ & _ & Hnew).
  - apply (bool_decide_unpack _). by vm_compute.
  - repeat constructor.
  - destruct (Hnew [(0%Z, comp_A (1 # 1)); (1%Z, comp_A (1 # 1));
                    (2%Z, comp_vacuum)]
                   3%Z (comp_AB (1 # 2) (1 # 2))
                   [(4%Z, Zone.mk ["mat:graveyard"] [1 # 1]);
                    (5%Z, comp_A (1 # 1))])
      as (st0 & Hst0 & _ & Hfresh & _); [done|not_void|].
    vm_compute in Hst0. injection Hst0 as <-.
    destruct Hfresh as [Hi Hreg].
    { intros zone info [[= -> ->]|Hin%elem_of_nil]%elem_of_cons; [|done].
      by vm_compute. }
    exists st. vm_compute in Hst. injection Hst as <-.
    split_and!; [done..|exact Hi|exact Hreg].
Defined.

(** C7 fails as stated.  Fractions 1 and 1 - 1.5e-8 of the same material
    are two distinct compositions, 1.5e-8 apart, and make one zone: the
    tolerance of the code at 1 is 2e-8. *)
Lemma fewer_zones_than_distinct_compositions :
  (∃ st, assign_zones zones_near_one = Ok st ∧
         St.z st = 1%Z ∧
         dict_keys (St.zones_mats st) = [1%Z] ∧
         St.voxel_zone st !! 0%Z = Some 1%Z ∧
         St.voxel_zone st !! 1%Z = Some 1%Z) ∧
  spec_distinct_count zones_near_one.*2 = 2.
Proof. split; [eexists|]; by vm_compute. Qed.

(** ** The zone array *)

Section zone_array.
Context (voxel_zone : gmap Z Z).

Lemma read_zones_app (l1 l2 : list Z) :
  read_zones voxel_zone (l1 ++ l2)
  = match read_zones voxel_zone l1 with
    | Ok z1 => match read_zones voxel_zone l2 with
               | Ok z2 => Ok (z1 ++ z2)
               | Raise e => Raise e
               end
    | Raise e => Raise e
    end.
Proof.
  induction l1 as [|n l1 IH]; simpl.
  - by destruct (read_zones voxel_zone l2).
  - destruct (zone_of voxel_zone n); simpl; [|done].
    rewrite IH. destruct (read_zones voxel_zone l1); simpl; [|done].
    by destruct (read_zones voxel_zone l2).
Qed.

Lemma read_zones_length (ns zones : list Z) :
  read_zones voxel_zone ns = Ok zones → length zones = length ns.
Proof.
  revert zones. induction ns as [|n ns IH]; intros zones; simpl.
  - by intros [= <-].
  - destruct (zone_of voxel_zone n); simpl; [|done].
    destruct (read_zones voxel_zone ns) as [zs|]; simpl; [|done].
    intros [= <-]. simpl. by rewrite (IH zs).
Qed.

(** One row: columns [s], ..., [s + k - 1] of row [i]. *)
Lemma fill_row (R C i : nat) (k : nat) :
  ∀ (s : nat) (pre : list Z),
    i < R → s + k = C → length pre = i * C + s →
    for_ (Z.of_nat <$> seq s k) (fill_cell voxel_zone (Z.of_nat i))
         (Z.of_nat (i * C + s),
          {| shape := (Z.of_nat R, Z.of_nat C);
             data := pre ++ replicate (R * C - length pre) 0%Z |})
    = match read_zones voxel_zone (Z.of_nat <$> seq (i * C + s) k) with
      | Ok row =>
          Ok (Z.of_nat (i * C + s + k),
              {| shape := (Z.of_nat R, Z.of_nat C);
                 data := (pre ++ row)
                           ++ replicate (R * C - length pre - k) 0%Z |})
      | Raise e => Raise e
      end.
Proof.
  induction k as [|k IH]; intros s pre Hi Hs Hpre; simpl.
  - rewrite app_nil_r, Nat.add_0_r, Nat.sub_0_r. done.
  - destruct (zone_of voxel_zone (Z.of_nat (i * C + s))) as [zone|e];
      simpl; [|done].
    unfold nd_setitem. simpl.
    rewrite decide_True by lia.
    replace (Z.to_nat (Z.of_nat i * Z.of_nat C + Z.of_nat s))
      with (length pre + 0) by lia.
    rewrite insert_app_r.
    assert (HN : R * C - length pre = S (R * C - length pre - 1)) by nia.
    rewrite HN. simpl.
    replace (Z.of_nat (i * C + s) + 1)%Z with (Z.of_nat (i * C + S s)) by lia.
    replace (pre ++ zone :: replicate (R * C - length pre - 1) 0%Z)
      with ((pre ++ [zone])
              ++ replicate (R * C - length (pre ++ [zone])) 0%Z).
    2:{ rewrite <- app_assoc, length_app. simpl.
        by replace (R * C - (length pre + 1)) with (R * C - length pre - 1)
          by lia. }
    rewrite IH by (rewrite ?length_app; simpl; lia).
    replace (i * C + S s) with (S (i * C + s)) by lia.
    destruct (read_zones voxel_zone _) as [row|e]; simpl; [|done].
    rewrite length_app, <- (app_assoc pre [zone] row). simpl.
    do 2 f_equal; [lia|]. do 3 f_equal. lia.
Qed.

(** The rows [i], ..., [i + k - 1]. *)
Lemma fill_rows (R C : nat) (k : nat) :
  ∀ (i : nat) (pre : list Z),
    i + k = R → length pre = i * C →
    for_ (Z.of_nat <$> seq i k)
         (λ i, for_ (range (Z.of_nat C)) (fill_cell voxel_zone i))
         (Z.of_nat (i * C),
          {| shape := (Z.of_nat R, Z.of_nat C);
             data := pre ++ replicate (R * C - length pre) 0%Z |})
    = match read_zones voxel_zone (Z.of_nat <$> seq (i * C) (k * C)) with
      | Ok rows =>
          Ok (Z.of_nat (i * C + k * C),
              {| shape := (Z.of_nat R, Z.of_nat C);
                 data := (pre ++ rows)
                           ++ replicate (R * C - length pre - k * C) 0%Z |})
      | Raise e => Raise e
      end.
Proof.
  induction k as [|k IH]; intros i pre Hi Hpre.
  - simpl. by rewrite app_nil_r, Nat.add_0_r, Nat.sub_0_r.
  - cbn [seq fmap list_fmap for_]. unfold range at 1. rewrite Nat2Z.id.
    pose proof (fill_row R C i C 0 pre) as Hrow.
    rewrite !Nat.add_0_r in Hrow. rewrite Hrow by lia. clear Hrow.
    replace (S k * C) with (C + k * C) by lia.
    rewrite seq_app, fmap_app, read_zones_app.
    destruct (read_zones voxel_zone (Z.of_nat <$> seq (i * C) C))
      as [row|e] eqn:Hread; [|done].
    apply read_zones_length in Hread. rewrite length_fmap, length_seq in Hread.
    replace (R * C - length pre - C) with (R * C - length (pre ++ row))
      by (rewrite length_app; lia).
    replace (i * C + C) with (S i * C) by lia.
    rewrite IH by (rewrite ?length_app; lia).
    destruct (read_zones voxel_zone _) as [rows|e]; [|done].
    rewrite length_app, <- (app_assoc pre row rows).
    do 2 f_equal; [lia|]. do 3 f_equal. lia.
Qed.

(** [fill_ZONES] reads [voxel_zone[0]], [voxel_zone[1]], ... up to the
    number of cells of the array, and nothing else. *)
Lemma fill_ZONES_read (bounds : gmap string (list Q)) :
  let im := intervals bounds "x" in
  let jkm := (intervals bounds "y" * intervals bounds "z")%Z in
  fill_ZONES bounds voxel_zone
  = if decide (im < 0 ∨ jkm < 0)%Z then Raise ValueError
    else match read_zones voxel_zone (range (im * jkm)) with
         | Ok zones => Ok {| shape := (im, jkm); data := zones |}
         | Raise e => Raise e
         end.
Proof.
  intros im jkm. unfold fill_ZONES, np_zeros. fold im. fold jkm.
  destruct (decide (im < 0 ∨ jkm < 0)%Z) as [|Hdim]; [done|]. simpl.
  assert (HR : im = Z.of_nat (Z.to_nat im)) by lia.
  assert (HC : jkm = Z.of_nat (Z.to_nat jkm)) by lia.
  set (R := Z.to_nat im) in *. set (C := Z.to_nat jkm) in *.
  rewrite HR, HC. unfold range at 1. rewrite Nat2Z.id.
  replace (Z.to_nat (Z.of_nat R * Z.of_nat C)) with (R * C) by lia.
  pose proof (fill_rows R C R 0 []) as Hrows. simpl in Hrows.
  rewrite Nat.sub_0_r in Hrows. change (Z.of_nat 0) with 0%Z in Hrows.
  rewrite Hrows by lia. clear Hrows.
  unfold range.
  replace (Z.to_nat (Z.of_nat R * Z.of_nat C)) with (R * C) by lia.
  destruct (read_zones voxel_zone _) as [zones|e] eqn:Hread; [|done]. simpl.
  rewrite Nat.sub_diag. simpl. by rewrite app_nil_r.
Qed.
End zone_array.

Lemma elem_of_range (m n : Z) : n ∈ range m ↔ (0 ≤ n < m)%Z.
Proof.
  unfold range. rewrite list_elem_of_fmap. split.
  - intros (k & -> & Hk%elem_of_seq). lia.
  - intros Hn. exists (Z.to_nat n). rewrite elem_of_seq. lia.
Qed.

Lemma range_split (m n : Z) :
  (0 ≤ n < m)%Z →
  range m = range n ++ n :: (Z.of_nat <$> seq (S (Z.to_nat n))
                                            (Z.to_nat m - S (Z.to_nat n))).
Proof.
  intros Hn. unfold range.
  replace (Z.to_nat m)
    with (Z.to_nat n + S (Z.to_nat m - S (Z.to_nat n))) at 1 by lia.
  rewrite seq_app, fmap_app. simpl. by rewrite Z2Nat.id by lia.
Qed.

Section read_zones.
Context (voxel_zone : gmap Z Z).

Lemma read_zones_lookup (N : nat) :
  ∀ (s : nat) (zones : list Z),
    read_zones voxel_zone (Z.of_nat <$> seq s N) = Ok zones →
    ∀ p, p < N → zones !! p = voxel_zone !! Z.of_nat (s + p).
Proof.
  induction N as [|N IH]; intros s zones Hread p Hp; [lia|].
  simpl in Hread. unfold zone_of in Hread.
  destruct (voxel_zone !! Z.of_nat s) as [zone|] eqn:Hs; [|done].
  simpl in Hread.
  destruct (read_zones voxel_zone _) as [zs|] eqn:Hzs; [|done].
  injection Hread as <-. destruct p as [|p]; simpl.
  - by rewrite Nat.add_0_r.
  - rewrite (IH _ _ Hzs) by lia. f_equal. lia.
Qed.

Lemma read_zones_present (ns : list Z) :
  (∀ n, n ∈ ns → is_Some (voxel_zone !! n)) →
  ∃ zones, read_zones voxel_zone ns = Ok zones.
Proof.
  induction ns as [|n ns IH]; intros Hns; simpl; [by eexists|].
  destruct (Hns n) as [zone Hzone]; [by left|].
  destruct IH as [zones Hzones]; [intros; apply Hns; by right|].
  unfold zone_of. rewrite Hzone. simpl. rewrite Hzones. by eexists.
Qed.

Lemma read_zones_missing (ns1 ns2 : list Z) (n : Z) :
  (∀ n', n' ∈ ns1 → is_Some (voxel_zone !! n')) →
  voxel_zone !! n = None →
  read_zones voxel_zone (ns1 ++ n :: ns2) = Raise (KeyError n).
Proof.
  intros [zones Hzones]%read_zones_present Hn.
  rewrite read_zones_app, Hzones. simpl. unfold zone_of. by rewrite Hn.
Qed.

Lemma read_zones_ext (voxel_zone' : gmap Z Z) (ns : list Z) :
  (∀ n, n ∈ ns → voxel_zone' !! n = voxel_zone !! n) →
  read_zones voxel_zone' ns = read_zones voxel_zone ns.
Proof.
  induction ns as [|n ns IH]; intros Hns; simpl; [done|].
  unfold zone_of. rewrite (Hns n) by left.
  rewrite IH; [done|]. intros; apply Hns; by right.
Qed.

End read_zones.

(** When every key below the number of cells is present, the array is
    returned and holds the zone numbers in the order of the keys. *)
Lemma fill_ZONES_present (bounds : gmap string (list Q))
  (voxel_zone : gmap Z Z) :
  let im := intervals bounds "x" in
  let jkm := (intervals bounds "y" * intervals bounds "z")%Z in
  (0 ≤ im)%Z → (0 ≤ jkm)%Z →
  (∀ n, (0 ≤ n < im * jkm)%Z → is_Some (voxel_zone !! n)) →
  ∃ ZONES, fill_ZONES bounds voxel_zone = Ok ZONES ∧
           shape ZONES = (im, jkm) ∧
           ∀ i jk, (0 ≤ i < im)%Z → (0 ≤ jk < jkm)%Z →
                   nd_getitem ZONES i jk = voxel_zone !! (i * jkm + jk)%Z.
Proof.
  intros im jkm Him Hjkm Hall. rewrite fill_ZONES_read. fold im. fold jkm.
  rewrite decide_False by lia.
  destruct (read_zones_present voxel_zone (range (im * jkm)))
    as [zones Hzones].
  { intros n Hn%elem_of_range. by apply Hall. }
  rewrite Hzones. eexists. split_and!; [done..|].
  intros i jk Hi Hjk. unfold nd_getitem. simpl.
  rewrite decide_True by lia.
  rewrite (read_zones_lookup voxel_zone _ 0 _ Hzones) by nia.
  f_equal. simpl. nia.
Qed.

(** C5, as the code has it.  [fill_ZONES] compares no cardinalities: it
    reads [voxel_zone[n]] for [n = 0, 1, ...] up to the number of cells of
    the array.  When all of these keys are present the array is returned,
    cell [(i, jk)] holding [voxel_zone[i * cols + jk]]; when one is
    missing, the first missing key raises [KeyError], so nothing is
    padded; and keys from [rows * cols] on are never read, so two voxel
    sets that agree below that bound give the same outcome. *)
Theorem fill_ZONES_reads_leading_voxels
  (bounds : gmap string (list Q)) (voxel_zone : gmap Z Z) :
  let im := intervals bounds "x" in
  let jkm := (intervals bounds "y" * intervals bounds "z")%Z in
  (0 ≤ im)%Z → (0 ≤ jkm)%Z →
  ((∀ n, (0 ≤ n < im * jkm)%Z → is_Some (voxel_zone !! n)) →
   ∃ ZONES, fill_ZONES bounds voxel_zone = Ok ZONES ∧
            shape ZONES = (im, jkm) ∧
            ∀ i jk, (0 ≤ i < im)%Z → (0 ≤ jk < jkm)%Z →
                    nd_getitem ZONES i jk = voxel_zone !! (i * jkm + jk)%Z) ∧
  (∀ n, (0 ≤ n < im * jkm)%Z → voxel_zone !! n = None →
        (∀ n', (0 ≤ n' < n)%Z → is_Some (voxel_zone !! n')) →
        fill_ZONES bounds voxel_zone = Raise (KeyError n)) ∧
  (∀ voxel_zone' : gmap Z Z,
     (∀ n, (0 ≤ n < im * jkm)%Z → voxel_zone' !! n = voxel_zone !! n) →
     fill_ZONES bounds voxel_zone' = fill_ZONES bounds voxel_zone).
Proof.
  intros im jkm Him Hjkm. split_and!.
  - by apply fill_ZONES_present.
  - intros n Hn Hmiss Hbelow. rewrite fill_ZONES_read. fold im. fold jkm.
    rewrite decide_False by lia.
    rewrite (range_split _ n) by done.
    rewrite read_zones_missing; [done| |done].
    intros n' Hn'%elem_of_range. by apply Hbelow.
  - intros voxel_zone' Hagree. rewrite !fill_ZONES_read. fold im. fold jkm.
    rewrite (read_zones_ext voxel_zone voxel_zone'); [done|].
    intros n Hn%elem_of_range. by apply Hagree.
Qed.

Lemma fill_ZONES_reads_leading_voxels_witness :
  (∃ ZONES, fill_ZONES bounds_x2 two_zones = Ok ZONES ∧
            shape ZONES = (2, 1)%Z ∧
            nd_getitem ZONES 0 0 = Some 1%Z ∧
            nd_getitem ZONES 1 0 = Some 0%Z) ∧
  fill_ZONES bounds_x2 (delete 1%Z two_zones) = Raise (KeyError 1) ∧
  fill_ZONES bounds_x2 six_zones = fill_ZONES bounds_x2 two_zones.
Proof.
  assert (Hx : intervals bounds_x2 "x" = 2%Z) by reflexivity.
  assert (Hyz : (intervals bounds_x2 "y" * intervals bounds_x2 "z")%Z = 1%Z)
    by reflexivity.
  destruct (fill_ZONES_reads_leading_voxels bounds_x2 two_zones)
    as (Hok & _ & Hext); [by vm_compute..|].
  destruct (fill_ZONES_reads_leading_voxels bounds_x2 (delete 1%Z two_zones))
    as (_ & Hmiss & _); [by vm_compute..|].
  rewrite Hx, Hyz in Hok, Hext, Hmiss.
  split_and!.
  - destruct Hok as (ZONES & HZ & Hshape & Hcells).
    { intros n Hn. assert (n = 0 ∨ n = 1)%Z as [-> | ->] by lia; by eexists. }
    exists ZONES. split_and!; [done..| |].
    + by rewrite Hcells by lia.
    + by rewrite Hcells by lia.
  - apply Hmiss; [lia|done|].
    intros n Hn. assert (n = 0)%Z as -> by lia. by eexists.
  - apply Hext. intros n Hn.
    assert (n = 0 ∨ n = 1)%Z as [-> | ->] by lia; reflexivity.
Defined.

(** C5 fails as stated: the discretisation has three voxels, the array
    two cells, and [_get_zones] returns the array of the first two. *)
Lemma oversized_voxel_set_is_accepted :
  length (dict_keys (group_voxels dg_three_voxels)) = 3 ∧
  (intervals bounds_x2 "x"
   * (intervals bounds_x2 "y" * intervals bounds_x2 "z"))%Z = 2%Z ∧
  _get_zones dg_three_voxels cells_ABV bounds_x2
  = Ok ({| shape := (2, 1)%Z; data := [1; 1]%Z |},
        [(1%Z, Zone.mk ["mat:A"] [1 # 1])]).
Proof. by vm_compute. Qed.

(** The bounds returned by [_get_coord_sys] hold exactly the active
    axes. *)
Lemma get_coord_sys_bounds (mesh : Mesh) (igeom : string)
  (bounds : gmap string (list Q)) :
  _get_coord_sys mesh = Ok (igeom, bounds) →
  ∀ axis, axis ∈ ["x"; "y"; "z"] →
    bounds !! axis
    = if active mesh axis then Some (structured_get_divisions mesh axis)
      else None.
Proof.
  unfold _get_coord_sys, coord_sys_of, active.
  destruct (2 <? length (structured_get_divisions mesh "x")) eqn:Hx,
           (2 <? length (structured_get_divisions mesh "y")) eqn:Hy,
           (2 <? length (structured_get_divisions mesh "z")) eqn:Hz;
    simpl; intros [= <- <-] axis Haxis;
    repeat (apply elem_of_cons in Haxis as [->|Haxis]);
    try (by apply elem_of_nil in Haxis);
    rewrite ?Hx, ?Hy, ?Hz; by simplify_map_eq.
Qed.

Lemma intervals_of_bounds (mesh : Mesh) (igeom : string)
  (bounds : gmap string (list Q)) (axis : string) :
  _get_coord_sys mesh = Ok (igeom, bounds) →
  axis ∈ ["x"; "y"; "z"] →
  intervals bounds axis = intervals_or_1 mesh axis.
Proof.
  intros Hcs Haxis. unfold intervals, intervals_or_1.
  rewrite (get_coord_sys_bounds _ _ _ Hcs) by done.
  by destruct (active mesh axis).
Qed.

Lemma intervals_or_1_pos (mesh : Mesh) (axis : string) :
  (1 ≤ intervals_or_1 mesh axis)%Z.
Proof.
  unfold intervals_or_1, active, mesh_intervals.
  destruct (2 <? _) eqn:H; [|done]. apply Nat.ltb_lt in H. lia.
Qed.

(** C4, as the code has it.  For the bounds of [_get_coord_sys] and a
    zone number for every cell, the array has as many rows as x has
    intervals when x is active and one row otherwise, and as many columns
    as the product of the intervals of y and z, each counted as 1 when
    inactive.  When x is active this is the shape of the specification:
    x is then the first active axis. *)
Theorem zone_array_shape (mesh : Mesh) (igeom : string)
  (bounds : gmap string (list Q)) (voxel_zone : gmap Z Z) :
  let im := intervals_or_1 mesh "x" in
  let jm := intervals_or_1 mesh "y" in
  let km := intervals_or_1 mesh "z" in
  _get_coord_sys mesh = Ok (igeom, bounds) →
  (∀ n, (0 ≤ n < im * (jm * km))%Z → is_Some (voxel_zone !! n)) →
  ∃ ZONES, fill_ZONES bounds voxel_zone = Ok ZONES ∧
           shape ZONES = (im, (jm * km)%Z) ∧
           (active mesh "x" → spec_shape mesh = Some (shape ZONES)).
Proof.
  intros im jm km Hcs Hall.
  pose proof (intervals_or_1_pos mesh "x").
  pose proof (intervals_or_1_pos mesh "y").
  pose proof (intervals_or_1_pos mesh "z").
  pose proof (fill_ZONES_present bounds voxel_zone) as Hok. simpl in Hok.
  rewrite !(intervals_of_bounds mesh igeom) in Hok by (done || set_solver).
  destruct Hok as (ZONES & HZ & Hshape & _); [lia..|done|].
  exists ZONES. split_and!; [done..|].
  intros Hx. rewrite Hshape. unfold spec_shape, im, jm, km, intervals_or_1.
  rewrite !filter_cons, filter_nil.
  destruct (active mesh "x"); [|done].
  rewrite decide_True by done.
  destruct (active mesh "y"), (active mesh "z"); simpl;
    do 2 f_equal; lia.
Qed.

Lemma zone_array_shape_witness :
  ∃ ZONES, fill_ZONES {["x" := [0; 1; 2]%Q; "y" := [0; 1; 2; 3]%Q]} six_zones
           = Ok ZONES ∧
           shape ZONES = (2, 3)%Z ∧
           spec_shape mesh_x2_y3 = Some (shape ZONES).
Proof.
  destruct (zone_array_shape mesh_x2_y3 "X-Y"
              {["x" := [0; 1; 2]%Q; "y" := [0; 1; 2; 3]%Q]} six_zones)
    as (ZONES & HZ & Hshape & Hspec).
  - by vm_compute.
  - intros n Hn.
    assert (n = 0 ∨ n = 1 ∨ n = 2 ∨ n = 3 ∨ n = 4 ∨ n = 5)%Z
      as [->|[->|[->|[->|[->| ->]]]]]
      by (change (0 ≤ n < 2 * (3 * 1))%Z in Hn; lia); by eexists.
  - exists ZONES. split_and!; [done..|]. by apply Hspec.
Defined.

(** C4 fails as stated when x is not active: with y as the only active
    axis, of three intervals, the array has 1 row and 3 columns where the
    specification has 3 rows and 1 column. *)
Lemma rows_are_not_the_first_active_axis :
  spec_shape mesh_y3 = Some (3, 1)%Z ∧
  ∃ bounds ZONES zones_mats,
    _get_coord_sys mesh_y3 = Ok ("SLAB", bounds) ∧
    _get_zones dg_three_voxels cells_ABV bounds = Ok (ZONES, zones_mats) ∧
    shape ZONES = (1, 3)%Z.
Proof.
  split; [done|].
  eexists _, _, _. split_and!; [by vm_compute| |]; by vm_compute.
Qed.

(** ** The whole of [_get_zones] *)

(** When every recorded cell has a material and the records name every
    voxel from 0 up to the number of cells of the array, [_get_zones]
    returns the array and the registry. *)
Lemma get_zones_returns (dg : list dg_record) (mat_assigns : gmap Z string)
  (bounds : gmap string (list Q)) :
  let im := intervals bounds "x" in
  let jkm := (intervals bounds "y" * intervals bounds "z")%Z in
  (∀ idx cell f, (idx, cell, f) ∈ dg → is_Some (mat_assigns !! cell)) →
  (0 ≤ im)%Z → (0 ≤ jkm)%Z →
  (∀ n, (0 ≤ n < im * jkm)%Z → ∃ cell f, (n, cell, f) ∈ dg) →
  ∃ zones st ZONES,
    merge_materials mat_assigns (group_voxels dg) = Ok zones ∧
    assign_zones zones = Ok st ∧
    fill_ZONES bounds (St.voxel_zone st) = Ok ZONES ∧
    _get_zones dg mat_assigns bounds = Ok (ZONES, St.zones_mats st) ∧
    shape ZONES = (im, jkm).
Proof.
  intros im jkm Hcells Him Hjkm Hcover.
  destruct (merge_materials_records dg mat_assigns Hcells)
    as (zones & Hzones & _ & Hdom & _).
  destruct (merged_zones_aligned dg mat_assigns zones Hcells Hzones)
    as [Hkeys Haligned].
  destruct (assign_zones_registered zones Haligned)
    as (st & Hst & Hvz & _).
  destruct (fill_ZONES_present bounds (St.voxel_zone st))
    as (ZONES & HZ & Hshape & _); [done..| |].
  { intros n Hn. rewrite Hvz. apply registered_dom, Hdom. by apply Hcover. }
  exists zones, st, ZONES. split_and!; [done..| |done].
  unfold _get_zones. rewrite Hzones. simpl. rewrite Hst. simpl.
  by rewrite HZ.
Qed.

(** The scenario of four voxels along x: two of material A, two of
    vacuum. *)
Example four_voxels_along_x :
  _get_zones [(0%Z, 10%Z, 1 # 1); (1%Z, 10%Z, 1 # 1);
              (2%Z, 13%Z, 1 # 1); (3%Z, 13%Z, 1 # 1)]
             cells_ABV {["x" := [0; 1; 2; 3; 4]%Q]}
  = Ok ({| shape := (4, 1)%Z; data := [1; 1; 0; 0]%Z |},
        [(1%Z, comp_A (1 # 1))]).
Proof. by vm_compute. Qed.

(** ** Voxels without records *)




(** * Further properties *)

(** ** Loops that may raise *)

Section for_outcome.
Context {A S : Type} (body : A → S → result S).
Context (I : S → Prop) (E : exn → Prop).

(** When every step keeps [I] or raises within [E], so does the loop. *)
Lemma for_outcome (xs : list A) :
  ∀ s,
    (∀ x s, x ∈ xs → I s →
       match body x s with Ok s' => I s' | Raise e => E e end) →
    I s →
    match for_ xs body s with Ok s' => I s' | Raise e => E e end.
Proof.
  induction xs as [|x xs IH]; intros s Hstep Hs; simpl; [done|].
  pose proof (Hstep x s (list_elem_of_here _ _) Hs) as Hx.
  destruct (body x s) as [s'|e]; [|done].
  apply IH; [|done]. intros x' s'' Hin. apply Hstep. by right.
Qed.

(** A step that raises in every state that satisfies [I] makes the loop
    raise. *)
Lemma for_raises (xs : list A) (x : A) :
  ∀ s,
    (∀ x s, x ∈ xs → I s →
       match body x s with Ok s' => I s' | Raise e => E e end) →
    x ∈ xs → (∀ s, I s → ∃ e, body x s = Raise e) → I s →
    ∃ e, for_ xs body s = Raise e.
Proof.
  induction xs as [|x' xs IH]; intros s Hstep Hin Hx Hs; simpl;
    [by apply elem_of_nil in Hin|].
  pose proof (Hstep x' s (list_elem_of_here _ _) Hs) as Hx'.
  destruct (body x' s) as [s'|e] eqn:Hbody; [|by exists e].
  apply elem_of_cons in Hin as [->|Hin].
  - destruct (Hx s Hs) as [e He]. congruence.
  - apply IH; [|done..]. intros x'' s'' Hin'. apply Hstep. by right.
Qed.

End for_outcome.

Lemma elem_of_enumerate {A : Type} (l : list A) (i : nat) (x : A) :
  (i, x) ∈ enumerate l ↔ l !! i = Some x.
Proof.
  unfold enumerate. rewrite list_elem_of_lookup. split.
  - intros [j Hj]. apply lookup_zip_with_Some in Hj
      as (i' & x' & [= -> ->] & Hi & Hx).
    apply lookup_seq in Hi as [-> _]. done.
  - intros Hi. exists i. apply lookup_zip_with_Some. exists i, x.
    split_and!; [done| |done]. apply lookup_seq. split; [done|].
    by eapply lookup_lt_Some.
Qed.

(** ** Cells without a material *)

Section unassigned.
Context (mat_assigns : gmap Z string).

(** The only exception of [merge_cells] on a voxel with as many volume
    fractions as cells is the [KeyError] of a cell without material. *)
Lemma merge_cell_outcome (v : Voxel.t) (i : nat) (cell : Z) (zone : Zone.t) :
  length (Voxel.cell v) = length (Voxel.vol_frac v) →
  Voxel.cell v !! i = Some cell →
  aligned zone →
  match merge_cell mat_assigns v (i, cell) zone with
  | Ok zone' => aligned zone'
  | Raise e => e = KeyError cell ∧ mat_assigns !! cell = None
  end.
Proof.
  intros Hlen Hi Hzone. unfold merge_cell, mat_of.
  destruct (mat_assigns !! cell) as [m|] eqn:Hm; simpl; [|done].
  destruct (lookup_lt_is_Some_2 (Voxel.vol_frac v) i) as [f Hf].
  { rewrite <- Hlen. by eapply lookup_lt_Some. }
  unfold getitem. rewrite Hf. simpl. case_bool_decide.
  - unfold aligned in *. simpl. rewrite !length_app. simpl. lia.
  - destruct (add_to_existing_lookup m f (Zone.mat zone) (Zone.vol_frac zone))
      as (vol_frac' & -> & Hlen' & _); [done|].
    simpl. unfold aligned in *. simpl. congruence.
Qed.

Lemma merge_cells_outcome (v : Voxel.t) :
  length (Voxel.cell v) = length (Voxel.vol_frac v) →
  match merge_cells mat_assigns v with
  | Ok zone => aligned zone
  | Raise e => ∃ cell, e = KeyError cell ∧ cell ∈ Voxel.cell v ∧
                       mat_assigns !! cell = None
  end.
Proof.
  intros Hlen. unfold merge_cells.
  apply (for_outcome _ aligned
           (λ e, ∃ cell, e = KeyError cell ∧ cell ∈ Voxel.cell v ∧
                         mat_assigns !! cell = None)); [|done].
  intros [i cell] zone Hi%elem_of_enumerate Hzone.
  pose proof (merge_cell_outcome v i cell zone Hlen Hi Hzone) as Hout.
  destruct (merge_cell mat_assigns v (i, cell) zone); [done|].
  destruct Hout as [-> Hnone]. exists cell. split_and!; [done| |done].
  by eapply list_elem_of_lookup_2.
Qed.

Lemma merge_cells_unassigned (v : Voxel.t) (cell : Z) :
  length (Voxel.cell v) = length (Voxel.vol_frac v) →
  cell ∈ Voxel.cell v → mat_assigns !! cell = None →
  ∃ e, merge_cells mat_assigns v = Raise e.
Proof.
  intros Hlen [i Hi]%list_elem_of_lookup Hnone. unfold merge_cells.
  apply (for_raises _ aligned (λ _, True) _ (i, cell)); [| | |done].
  - intros [i' cell'] zone Hi'%elem_of_enumerate Hzone.
    pose proof (merge_cell_outcome v i' cell' zone Hlen Hi' Hzone) as Hout.
    by destruct (merge_cell mat_assigns v (i', cell') zone).
  - by apply elem_of_enumerate.
  - intros zone _. unfold merge_cell, mat_of. rewrite Hnone. by eexists.
Qed.

End unassigned.

Section unassigned_cells.
Context (dg : list dg_record) (mat_assigns : gmap Z string).

Lemma group_voxels_entry (idx : Z) (v : Voxel.t) :
  dict_get idx (group_voxels dg) = Some v →
  v = Voxel.mk (records_of idx dg).*1 (records_of idx dg).*2.
Proof.
  rewrite group_voxels_get. destruct (records_of idx dg); [done|].
  by intros [= <-].
Qed.

Lemma merge_voxel_outcome (z : Z) (zones : dict Zone.t) :
  z ∈ dict_keys (group_voxels dg) →
  match merge_voxel mat_assigns (group_voxels dg) z zones with
  | Ok _ => True
  | Raise e => ∃ idx cell f, (idx, cell, f) ∈ dg ∧
                             mat_assigns !! cell = None ∧ e = KeyError cell
  end.
Proof.
  intros [v Hv]%dict_get_keys. unfold merge_voxel, dict_getitem.
  rewrite Hv. simpl. pose proof (group_voxels_entry z v Hv) as ->.
  pose proof (merge_cells_outcome mat_assigns
                (Voxel.mk (records_of z dg).*1 (records_of z dg).*2)) as Hout.
  simpl in Hout. rewrite !length_fmap in Hout. specialize (Hout eq_refl).
  destruct (merge_cells _ _) as [info|e]; simpl; [done|].
  destruct Hout as (cell & -> & Hin & Hnone).
  apply list_elem_of_fmap in Hin as ([cell' f] & -> & Hin).
  apply records_of_elem_of in Hin. by exists z, cell', f.
Qed.

(** The merge returns when every recorded cell has a material, and raises
    the [KeyError] of a recorded cell without material otherwise. *)
Lemma merge_materials_outcome :
  match merge_materials mat_assigns (group_voxels dg) with
  | Ok _ => ∀ idx cell f, (idx, cell, f) ∈ dg → is_Some (mat_assigns !! cell)
  | Raise e => ∃ idx cell f, (idx, cell, f) ∈ dg ∧
                             mat_assigns !! cell = None ∧ e = KeyError cell
  end.
Proof.
  destruct (decide (Forall (λ r : dg_record, is_Some (mat_assigns !! r.1.2)) dg))
    as [Hall|Hsome].
  - rewrite Forall_forall in Hall.
    assert (Hcells : ∀ idx cell f,
      (idx, cell, f) ∈ dg → is_Some (mat_assigns !! cell)).
    { intros idx cell f Hin. apply (Hall (idx, cell, f) Hin). }
    by destruct (merge_materials_records dg mat_assigns Hcells)
      as (zones & -> & _).
  - apply not_Forall_Exists in Hsome; [|apply _].
    apply Exists_exists in Hsome as ([[idx cell] f] & Hin & Hnone).
    simpl in Hnone. rewrite <- eq_None_not_Some in Hnone.
    pose proof (for_outcome (merge_voxel mat_assigns (group_voxels dg))
                  (λ _, True)
                  (λ e, ∃ idx cell f, (idx, cell, f) ∈ dg ∧
                          mat_assigns !! cell = None ∧ e = KeyError cell)
                  (dict_keys (group_voxels dg)) []) as Hout.
    destruct (for_raises (merge_voxel mat_assigns (group_voxels dg))
                (λ _, True) (λ _, True)
                (dict_keys (group_voxels dg)) idx []) as [e He]; [| | |done|].
    + intros z zones Hz _.
      by destruct (merge_voxel mat_assigns (group_voxels dg) z zones).
    + apply group_voxels_keys. by exists cell, f.
    + intros zones _.
      assert (idx ∈ dict_keys (group_voxels dg)) as [v Hv]%dict_get_keys
        by (apply group_voxels_keys; by exists cell, f).
      unfold merge_voxel, dict_getitem. rewrite Hv. simpl.
      pose proof (group_voxels_entry idx v Hv) as ->.
      destruct (merge_cells_unassigned mat_assigns
                  (Voxel.mk (records_of idx dg).*1 (records_of idx dg).*2)
                  cell) as [e He]; [by simpl; rewrite !length_fmap| |done|].
      * simpl. apply list_elem_of_fmap. exists (cell, f).
        split; [done|]. by apply records_of_elem_of.
      * rewrite He. by exists e.
    + unfold merge_materials. rewrite He. unfold merge_materials in Hout.
      rewrite He in Hout. apply Hout; [|done].
      intros z zones Hz _. by apply merge_voxel_outcome.
Qed.

End unassigned_cells.

Lemma read_zones_Ok (voxel_zone : gmap Z Z) (ns zones : list Z) :
  read_zones voxel_zone ns = Ok zones →
  ∀ n, n ∈ ns → is_Some (voxel_zone !! n).
Proof.
  revert zones. induction ns as [|n' ns IH]; intros zones Hread n;
    [by intros ?%elem_of_nil|].
  simpl in Hread. unfold zone_of in Hread.
  destruct (voxel_zone !! n') as [zone|] eqn:Hn'; [|done]. simpl in Hread.
  destruct (read_zones voxel_zone ns) as [zs|] eqn:Hzs; [|done].
  intros [->|Hin]%elem_of_cons; [by eexists|]. by eapply IH.
Qed.

(** What a returned array tells about the dimensions and the keys. *)
Lemma fill_ZONES_Ok (bounds : gmap string (list Q)) (voxel_zone : gmap Z Z)
  (ZONES : ndarray) :
  let im := intervals bounds "x" in
  let jkm := (intervals bounds "y" * intervals bounds "z")%Z in
  fill_ZONES bounds voxel_zone = Ok ZONES →
  (0 ≤ im)%Z ∧ (0 ≤ jkm)%Z ∧
  (∀ n, (0 ≤ n < im * jkm)%Z → is_Some (voxel_zone !! n)) ∧
  shape ZONES = (im, jkm) ∧
  ∀ i jk, (0 ≤ i < im)%Z → (0 ≤ jk < jkm)%Z →
          nd_getitem ZONES i jk = voxel_zone !! (i * jkm + jk)%Z.
Proof.
  intros im jkm Hfill. pose proof Hfill as Hread.
  rewrite fill_ZONES_read in Hread. fold im in Hread. fold jkm in Hread.
  destruct (decide (im < 0 ∨ jkm < 0)%Z) as [|Hdim]; [done|].
  destruct (read_zones voxel_zone (range (im * jkm))) as [zones|] eqn:Hzones;
    [|done].
  assert (Hall : ∀ n, (0 ≤ n < im * jkm)%Z → is_Some (voxel_zone !! n)).
  { intros n Hn. eapply read_zones_Ok; [done|]. by apply elem_of_range. }
  destruct (fill_ZONES_present bounds voxel_zone)
    as (ZONES' & HZ' & Hshape & Hcells); [lia..|done|].
  assert (ZONES' = ZONES) as -> by congruence.
  split_and!; [lia..|done|done|done].
Qed.

(** ** What [_get_zones] returns *)

Lemma get_zones_Ok (dg : list dg_record) (mat_assigns : gmap Z string)
  (bounds : gmap string (list Q)) (ZONES : ndarray) (zones_mats : dict Zone.t) :
  _get_zones dg mat_assigns bounds = Ok (ZONES, zones_mats) →
  ∃ zones,
    merge_materials mat_assigns (group_voxels dg) = Ok zones ∧
    (∀ idx cell f, (idx, cell, f) ∈ dg → is_Some (mat_assigns !! cell)) ∧
    NoDup (dict_keys zones) ∧ Forall aligned zones.*2 ∧
    zones_mats = (registered zones).2 ∧
    fill_ZONES bounds (registered zones).1 = Ok ZONES.
Proof.
  unfold _get_zones. intros Hget.
  pose proof (merge_materials_outcome dg mat_assigns) as Hcells.
  destruct (merge_materials mat_assigns (group_voxels dg)) as [zones|] eqn:Hz;
    [|done].
  simpl in Hget.
  destruct (merged_zones_aligned dg mat_assigns zones Hcells Hz)
    as [Hkeys Haligned].
  destruct (assign_zones_registered zones Haligned)
    as (st & Hst & Hvz & Hzm & _).
  rewrite Hst in Hget. simpl in Hget. rewrite Hvz, Hzm in Hget.
  destruct (fill_ZONES bounds (registered zones).1) as [Z'|] eqn:Hfill;
    [|done].
  injection Hget as <- <-. by exists zones.
Qed.

(** X1.  When some record of the discretisation names a cell that has no
    material assignment, [_get_zones] raises the [KeyError] of such a
    cell, whatever the bounds are: no zone is numbered and no array is
    built. *)
Theorem get_zones_unassigned_cell (dg : list dg_record)
  (mat_assigns : gmap Z string) (bounds : gmap string (list Q))
  (idx cell : Z) (f : Q) :
  (idx, cell, f) ∈ dg → mat_assigns !! cell = None →
  ∃ idx' cell' f',
    _get_zones dg mat_assigns bounds = Raise (KeyError cell') ∧
    (idx', cell', f') ∈ dg ∧ mat_assigns !! cell' = None.
Proof.
  intros Hin Hnone. unfold _get_zones.
  pose proof (merge_materials_outcome dg mat_assigns) as Hout.
  destruct (merge_materials mat_assigns (group_voxels dg)) as [zones|e].
  - destruct (Hout idx cell f Hin) as [m Hm]. congruence.
  - destruct Hout as (idx' & cell' & f' & Hin' & Hnone' & ->).
    by exists idx', cell', f'.
Qed.

Lemma get_zones_unassigned_cell_witness :
  ∃ idx' cell' f',
    _get_zones dg_unassigned cells_ABV bounds_x2 = Raise (KeyError cell') ∧
    (idx', cell', f') ∈ dg_unassigned ∧ cells_ABV !! cell' = None.
Proof.
  apply (get_zones_unassigned_cell dg_unassigned cells_ABV bounds_x2
           1%Z 99%Z (1 # 1)).
  - right. by left.
  - reflexivity.
Defined.

(** X2.  [_get_zones] returns exactly when every recorded cell has a
    material, no dimension of the array is negative, and the records
    name every voxel number from 0 up to the number of cells of the
    array. *)
Theorem get_zones_returns_iff (dg : list dg_record)
  (mat_assigns : gmap Z string) (bounds : gmap string (list Q)) :
  let im := intervals bounds "x" in
  let jkm := (intervals bounds "y" * intervals bounds "z")%Z in
  (∃ ZONES zones_mats,
     _get_zones dg mat_assigns bounds = Ok (ZONES, zones_mats)) ↔
  (∀ idx cell f, (idx, cell, f) ∈ dg → is_Some (mat_assigns !! cell)) ∧
  (0 ≤ im)%Z ∧ (0 ≤ jkm)%Z ∧
  (∀ n, (0 ≤ n < im * jkm)%Z → ∃ cell f, (n, cell, f) ∈ dg).
Proof.
  intros im jkm. split.
  - intros (ZONES & zones_mats & Hget).
    destruct (get_zones_Ok _ _ _ _ _ Hget)
      as (zones & Hzones & Hcells & Hkeys & Haligned & _ & Hfill).
    destruct (fill_ZONES_Ok _ _ _ Hfill) as (Him & Hjkm & Hall & _).
    split_and!; [done..|]. intros n Hn.
    destruct (merge_materials_records dg mat_assigns Hcells)
      as (zones' & Hzones' & _ & Hdom & _).
    assert (zones' = zones) as -> by congruence.
    apply Hdom, registered_dom. by apply Hall.
  - intros (Hcells & Him & Hjkm & Hcover).
    destruct (get_zones_returns dg mat_assigns bounds Hcells Him Hjkm Hcover)
      as (zones & st & ZONES & _ & _ & _ & Hget & _).
    by exists ZONES, (St.zones_mats st).
Qed.

Lemma filter_none {A : Type} (P : A → Prop) `{!∀ x, Decision (P x)}
  (l : list A) :
  (∀ x, x ∈ l → ¬ P x) → filter P l = [].
Proof.
  induction l as [|x l IH]; intros Hl; [done|].
  rewrite filter_cons_False by (apply Hl; by left).
  apply IH. intros y Hy. apply Hl. by right.
Qed.

Lemma first_seen_singleton (l : list string) (name : string) :
  first_seen l = [name] ↔ l ≠ [] ∧ ∀ x, x ∈ l → x = name.
Proof.
  split.
  - intros Hfs. split; [by intros ->|].
    intros x Hx%first_seen_elem_of. rewrite Hfs in Hx.
    by apply list_elem_of_singleton in Hx.
  - intros [Hne Hall]. destruct l as [|x l]; [done|]. simpl.
    rewrite (Hall x) by left. f_equal. apply filter_none.
    intros y Hy Hne'. apply (proj1 (first_seen_elem_of _ _)) in Hy.
    apply Hne', Hall. by right.
Qed.

Lemma void_mats_single (mat : list string) :
  mat ∈ void_mats ↔ ∃ name, mat = [name] ∧ [name] ∈ void_mats.
Proof.
  split; [|by intros (name & -> & ?)].
  intros Hin. unfold void_mats in Hin.
  repeat (apply elem_of_cons in Hin as [->|Hin];
          [eexists; split; [done|]; unfold void_mats;
           repeat first [by left | right] |]).
  by apply elem_of_nil in Hin.
Qed.

Lemma elem_of_materials_of (mat_assigns : gmap Z string)
  (recs : list (Z * Q)) (m : string) :
  m ∈ materials_of mat_assigns recs ↔
  ∃ cell f, (cell, f) ∈ recs ∧ mat_assigns !! cell = Some m.
Proof.
  unfold materials_of. rewrite list_elem_of_omap. split.
  - intros ([cell f] & Hin & Hm). by exists cell, f.
  - intros (cell & f & Hin & Hm). by exists (cell, f).
Qed.

(** The cell [(i, jk)] of a returned array: the zone number of the voxel
    [i * cols + jk], whose composition is that of its records. *)
Lemma get_zones_cell (dg : list dg_record) (mat_assigns : gmap Z string)
  (bounds : gmap string (list Q)) (ZONES : ndarray) (zones_mats : dict Zone.t)
  (i jk : Z) :
  let im := intervals bounds "x" in
  let jkm := (intervals bounds "y" * intervals bounds "z")%Z in
  _get_zones dg mat_assigns bounds = Ok (ZONES, zones_mats) →
  (0 ≤ i < im)%Z → (0 ≤ jk < jkm)%Z →
  ∃ zones info,
    zones_mats = (registered zones).2 ∧
    (∀ idx cell f, (idx, cell, f) ∈ dg → is_Some (mat_assigns !! cell)) ∧
    composition_of_records mat_assigns
      (records_of (i * jkm + jk) dg) info ∧
    (∃ cell f, ((i * jkm + jk)%Z, cell, f) ∈ dg) ∧
    nd_getitem ZONES i jk = zone_number info zones_mats ∧
    is_Some (zone_number info zones_mats).
Proof.
  intros im jkm Hget Hi Hjk.
  destruct (get_zones_Ok _ _ _ _ _ Hget)
    as (zones & Hzones & Hcells & Hkeys & Haligned & -> & Hfill).
  destruct (fill_ZONES_Ok _ _ _ Hfill) as (_ & _ & Hall & _ & Hcell).
  fold im in Hall, Hcell. fold jkm in Hall, Hcell.
  destruct (merge_materials_records dg mat_assigns Hcells)
    as (zones' & Hzones' & _ & Hdom & Hcomp).
  assert (zones' = zones) as -> by congruence.
  assert (i * jkm + jk ∈ dict_keys zones)%Z
    as Hn by (apply registered_dom, Hall; nia).
  pose proof Hn as ([n info] & Heq & Hin)%list_elem_of_fmap.
  simpl in Heq. subst n.
  destruct (registered_zone_number zones _ info Hkeys Hin) as [Hz Hsome].
  exists zones, info. split_and!; [done..|by apply Hcomp|by apply Hdom| |done].
  by rewrite Hcell.
Qed.

(** X3.  In the array that [_get_zones] returns, the cell [(i, jk)] holds
    0 exactly when all the records of the voxel [i * cols + jk] lie in
    cells of one and the same material, named [mat:Vacuum], [mat:vacuum],
    [mat:graveyard] or [mat:Graveyard]. *)
Theorem zone_array_zero_iff_void (dg : list dg_record)
  (mat_assigns : gmap Z string) (bounds : gmap string (list Q))
  (ZONES : ndarray) (zones_mats : dict Zone.t) :
  let im := intervals bounds "x" in
  let jkm := (intervals bounds "y" * intervals bounds "z")%Z in
  _get_zones dg mat_assigns bounds = Ok (ZONES, zones_mats) →
  ∀ i jk, (0 ≤ i < im)%Z → (0 ≤ jk < jkm)%Z →
    nd_getitem ZONES i jk = Some 0%Z ↔
    ∃ name, [name] ∈ void_mats ∧
            ∀ cell f, ((i * jkm + jk)%Z, cell, f) ∈ dg →
                      mat_assigns !! cell = Some name.
Proof.
  intros im jkm Hget i jk Hi Hjk.
  destruct (get_zones_cell _ _ _ _ _ i jk Hget Hi Hjk)
    as (zones & info & -> & Hcells & (Hmat & _) & (c0 & f0 & Hrec) & -> & Hsome).
  fold jkm in Hmat, Hrec. unfold zone_number in *. split.
  - intros Hzero. destruct (is_void info) eqn:Hvoid.
    + apply bool_decide_eq_true in Hvoid.
      apply void_mats_single in Hvoid as (name & Hname & Hvoid).
      exists name. split; [done|]. intros cell f Hin.
      rewrite Hmat in Hname. apply first_seen_singleton in Hname as [_ Hall].
      destruct (Hcells _ _ _ Hin) as [m Hm]. rewrite Hm. f_equal.
      apply Hall, elem_of_materials_of. exists cell, f.
      split; [by apply records_of_elem_of|done].
    + apply first_match_registered in Hzero as (_ & _ & _ & ? & _). lia.
  - intros (name & Hvoid & Hall).
    assert (is_void info = true) as ->; [|done].
    apply bool_decide_eq_true. rewrite Hmat.
    replace (first_seen _) with [name]; [done|]. symmetry.
    apply first_seen_singleton. split.
    + intros Hnil. assert (name ∈ materials_of mat_assigns
                             (records_of (i * jkm + jk) dg)) as Hin.
      { apply elem_of_materials_of. exists c0, f0.
        split; [by apply records_of_elem_of|by apply (Hall c0 f0)]. }
      rewrite Hnil in Hin. by apply elem_of_nil in Hin.
    + intros m (cell & f & Hin%records_of_elem_of & Hm)%elem_of_materials_of.
      rewrite (Hall cell f Hin) in Hm. congruence.
Qed.

Lemma zone_array_zero_iff_void_witness :
  nd_getitem {| shape := (4, 1)%Z; data := [1; 1; 0; 0]%Z |} 2 0 = Some 0%Z ↔
  ∃ name, [name] ∈ void_mats ∧
          ∀ cell f, ((2 * (1 * 1) + 0)%Z, cell, f) ∈ dg_four_voxels →
                    cells_ABV !! cell = Some name.
Proof.
  apply (zone_array_zero_iff_void dg_four_voxels cells_ABV bounds_x4
           {| shape := (4, 1)%Z; data := [1; 1; 0; 0]%Z |}
           [(1%Z, comp_A (1 # 1))]).
  - by vm_compute.
  - by vm_compute.
  - by vm_compute.
Defined.

(** X4.  Every cell of the array that [_get_zones] returns holds 0 or a
    key of the zone dictionary returned with it, whose keys are 1, ...,
    NZONE.  When no record names a voxel beyond the array, every key of
    the dictionary occurs in the array. *)
Theorem zone_array_indexes_registry (dg : list dg_record)
  (mat_assigns : gmap Z string) (bounds : gmap string (list Q))
  (ZONES : ndarray) (zones_mats : dict Zone.t) :
  let im := intervals bounds "x" in
  let jkm := (intervals bounds "y" * intervals bounds "z")%Z in
  _get_zones dg mat_assigns bounds = Ok (ZONES, zones_mats) →
  dict_keys zones_mats = Z.of_nat <$> seq 1 (length zones_mats) ∧
  (∀ i jk, (0 ≤ i < im)%Z → (0 ≤ jk < jkm)%Z →
     ∃ zone, nd_getitem ZONES i jk = Some zone ∧
             (0 ≤ zone ≤ Z.of_nat (length zones_mats))%Z) ∧
  ((∀ idx cell f, (idx, cell, f) ∈ dg → (0 ≤ idx < im * jkm)%Z) →
   ∀ zone, (1 ≤ zone ≤ Z.of_nat (length zones_mats))%Z →
     ∃ i jk, (0 ≤ i < im)%Z ∧ (0 ≤ jk < jkm)%Z ∧
             nd_getitem ZONES i jk = Some zone).
Proof.
  intros im jkm Hget. split_and!.
  - destruct (get_zones_Ok _ _ _ _ _ Hget) as (zones & _ & _ & _ & _ & -> & _).
    apply registered_numbered.
  - intros i jk Hi Hjk.
    destruct (get_zones_cell _ _ _ _ _ i jk Hget Hi Hjk)
      as (zones & info & -> & _ & _ & _ & -> & [zone Hzone]).
    exists zone. split; [done|]. unfold zone_number in Hzone.
    destruct (is_void info); [injection Hzone as <-; lia|].
    apply first_match_registered in Hzone as (_ & _ & _ & ?). lia.
  - intros Hinside zone Hzone.
    destruct (get_zones_Ok _ _ _ _ _ Hget)
      as (zones & Hzones & Hcells & Hkeys & Haligned & -> & Hfill).
    destruct (fill_ZONES_Ok _ _ _ Hfill) as (Him & Hjkm & _ & _ & Hcell).
    fold im in Him, Hcell. fold jkm in Hjkm, Hcell.
    destruct (numbered_lookup_zone _ zone (registered_numbered zones) Hzone)
      as [info Hinfo].
    apply list_elem_of_lookup_2 in Hinfo.
    destruct (registered_used zones zone info Hkeys Hinfo) as (idx & Hin & Hidx).
    destruct (merge_materials_records dg mat_assigns Hcells)
      as (zones' & Hzones' & _ & Hdom & _).
    assert (zones' = zones) as -> by congruence.
    assert (idx ∈ dict_keys zones) as (cell & f & Hrec)%Hdom.
    { apply list_elem_of_fmap. by exists (idx, info). }
    apply Hinside in Hrec.
    assert (0 < jkm)%Z as Hpos by nia.
    exists (idx / jkm)%Z, (idx mod jkm)%Z.
    pose proof (Z.mod_pos_bound idx jkm Hpos).
    pose proof (Z.div_mod idx jkm ltac:(lia)) as Hdm.
    assert (0 ≤ idx / jkm < im)%Z as Hi.
    { split; [apply Z.div_pos; lia|].
      apply Z.div_lt_upper_bound; [done|]. lia. }
    split_and!; [lia..|].
    rewrite Hcell by lia. rewrite <- Hidx. f_equal. lia.
Qed.

Lemma zone_array_indexes_registry_witness :
  dict_keys [(1%Z, comp_A (1 # 1))] = [1%Z] ∧
  ∀ i jk, (0 ≤ i < 4)%Z → (0 ≤ jk < 1)%Z →
    ∃ zone,
      nd_getitem {| shape := (4, 1)%Z; data := [1; 1; 0; 0]%Z |} i jk
        = Some zone ∧
      (0 ≤ zone ≤ 1)%Z.
Proof.
  destruct (zone_array_indexes_registry dg_four_voxels cells_ABV bounds_x4
              {| shape := (4, 1)%Z; data := [1; 1; 0; 0]%Z |}
              [(1%Z, comp_A (1 # 1))]) as (Hkeys & Hcells & _).
  - by vm_compute.
  - split; [exact Hkeys|exact Hcells].
Defined.

(** ** What [_get_coord_sys] returns *)

(** X5.  With at least one active axis [_get_coord_sys] returns: the
    geometry is named after the number of active axes, and the bounds
    hold the divisions of each active axis and no other key. *)
Theorem get_coord_sys_returns (mesh : Mesh) :
  active mesh "x" ∨ active mesh "y" ∨ active mesh "z" →
  ∃ bounds,
    _get_coord_sys mesh
    = Ok (match length (filter (λ axis, active mesh axis) ["x"; "y"; "z"])
          with
          | 1 => "SLAB"
          | 2 => "X-Y"
          | _ => "X-Y-Z"
          end, bounds) ∧
    (∀ axis, axis ∈ ["x"; "y"; "z"] → active mesh axis →
       bounds !! axis = Some (structured_get_divisions mesh axis)) ∧
    (∀ axis, bounds !! axis = None ↔
       axis ∉ ["x"; "y"; "z"] ∨ ¬ active mesh axis).
Proof.
  intros Hactive.
  destruct (get_coord_sys_active mesh Hactive) as (igeom & bounds & Hcs & ->).
  exists bounds. split; [done|].
  pose proof (get_coord_sys_bounds _ _ _ Hcs) as Hbounds. split.
  - intros axis Haxis Hact. rewrite Hbounds by done.
    by destruct (active mesh axis).
  - intros axis. destruct (decide (axis ∈ ["x"; "y"; "z"])) as [Haxis|Haxis].
    + rewrite Hbounds by done. destruct (active mesh axis); simpl.
      * split; [done|]. intros [?|Hn]; [done|]. by destruct Hn.
      * split; [|done]. intros _. right. by intros [].
    + split; [by left|]. intros _. clear Hbounds.
      unfold _get_coord_sys, coord_sys_of in Hcs.
      assert (axis ≠ "x" ∧ axis ≠ "y" ∧ axis ≠ "z") as (Hx & Hy & Hz).
      { split_and!; intros ->; apply Haxis; repeat constructor. }
      destruct (2 <? length (structured_get_divisions mesh "x")),
               (2 <? length (structured_get_divisions mesh "y")),
               (2 <? length (structured_get_divisions mesh "z"));
        simpl in Hcs; try done; injection Hcs as _ <-;
        by simplify_map_eq.
Qed.

Lemma get_coord_sys_returns_witness :
  ∃ bounds,
    _get_coord_sys mesh_x2_y3 = Ok ("X-Y", bounds) ∧
    (∀ axis, axis ∈ ["x"; "y"; "z"] → active mesh_x2_y3 axis →
       bounds !! axis = Some (structured_get_divisions mesh_x2_y3 axis)) ∧
    (∀ axis, bounds !! axis = None ↔
       axis ∉ ["x"; "y"; "z"] ∨ ¬ active mesh_x2_y3 axis).
Proof.
  apply (get_coord_sys_returns mesh_x2_y3). left. exact I.
Defined.

(** X6.  Without the keyword argument [names_dict] the call never
    returns.  Only [_get_coord_sys] is entered: when no axis is active
    its unassigned [IGEOM] is raised, and otherwise the first use of
    [nuc_names], which was never bound. *)
Theorem write_partisn_input_needs_names_dict (mesh : Mesh) (hdf5 : Geometry)
  (ngroup isn : Z) :
  write_partisn_input mesh hdf5 ngroup isn None
  = (["_get_coord_sys"],
     Raise (UnboundLocalError
              (if active mesh "x" || active mesh "y" || active mesh "z"
               then "nuc_names" else "IGEOM"))).
Proof.
  unfold write_partisn_input, _get_coord_sys, coord_sys_of, active.
  by destruct (2 <? length (structured_get_divisions mesh "x")),
              (2 <? length (structured_get_divisions mesh "y")),
              (2 <? length (structured_get_divisions mesh "z")).
Qed.

(** ** The title *)

Section strings.
Implicit Types (s t u : string) (a sep : Ascii.ascii).

Lemma append_cons a s t : String a s +:+ t = String a (s +:+ t).
Proof. done. Qed.

Lemma append_nil_r s : s +:+ "" = s.
Proof. induction s as [|a s IH]; [done|]. by rewrite append_cons, IH. Qed.

Lemma append_assoc s t u : (s +:+ t) +:+ u = s +:+ t +:+ u.
Proof. induction s as [|a s IH]; [done|]. by rewrite !append_cons, IH. Qed.

Lemma str_contains_app sep s t :
  str_contains sep (s +:+ t) = str_contains sep s || str_contains sep t.
Proof.
  induction s as [|a s IH]; [done|]. rewrite append_cons. simpl.
  by case_decide.
Qed.

Lemma str_split_nonempty sep s : str_split sep s ≠ [].
Proof.
  destruct s as [|a s]; simpl; [done|]. case_decide; [done|].
  by destruct (str_split sep s).
Qed.

(** Without a separator the string is returned whole. *)
Lemma str_split_whole sep s :
  str_contains sep s = false → str_split sep s = [s].
Proof.
  induction s as [|a s IH]; simpl; [done|]. case_decide; [done|].
  intros Hs. by rewrite IH.
Qed.

(** Splitting distributes over a separator. *)
Lemma str_split_app sep s t :
  str_split sep (s +:+ String sep t) = str_split sep s ++ str_split sep t.
Proof.
  induction s as [|a s IH].
  - simpl. change ("" +:+ String sep t) with (String sep t). simpl.
    by rewrite decide_True.
  - rewrite append_cons. simpl. case_decide; [by rewrite IH|].
    rewrite IH. pose proof (str_split_nonempty sep s).
    by destruct (str_split sep s).
Qed.

(** The first word is the text before the first separator. *)
Lemma str_split_head sep s :
  ∃ word post,
    head (str_split sep s) = Some word ∧ s = word +:+ post ∧
    str_contains sep word = false ∧
    (post = "" ∨ ∃ rest, post = String sep rest).
Proof.
  induction s as [|a s (word & post & Hhead & -> & Hword & Hpost)].
  - exists "", "". split_and!; [done..|by left].
  - simpl. case_decide as Ha.
    + subst a. exists "", (String sep (word +:+ post)).
      split_and!; [done..|]. right. by eexists.
    + exists (String a word), post.
      destruct (str_split sep (word +:+ post)); [done|].
      simpl in Hhead. injection Hhead as ->. split_and!; [done..| |done].
      simpl. by rewrite decide_False.
Qed.

(** The last word is the text after the last separator. *)
Lemma str_split_last sep s :
  ∃ pre word,
    last (str_split sep s) = Some word ∧ s = pre +:+ word ∧
    str_contains sep word = false ∧
    (pre = "" ∨ ∃ dir, pre = dir +:+ String sep "") ∧
    (str_contains sep s = false → pre = "").
Proof.
  induction s as [|a s (pre & word & Hlast & -> & Hword & Hpre & Hnone)].
  - exists "", "". split_and!; [done..|by left|done].
  - simpl. case_decide as Ha.
    + subst a. pose proof (str_split_nonempty sep (pre +:+ word)) as Hne.
      exists (String sep pre), word. split_and!; [|done..| |done].
      * by destruct (str_split sep (pre +:+ word)).
      * right. destruct Hpre as [->|[dir ->]]; [by exists ""|].
        by exists (String sep dir).
    + destruct (str_contains sep (pre +:+ word)) eqn:Hc.
      * exists (String a pre), word.
        pose proof (str_split_nonempty sep (pre +:+ word)) as Hne.
        split_and!; [|done..| |done].
        -- destruct (str_split sep (pre +:+ word)) as [|w [|w' ws]] eqn:Hs;
             [done| |done].
           apply (f_equal length) in Hs.
           destruct Hpre as [->|[dir ->]].
           ++ change ("" +:+ word) with word in Hc. congruence.
           ++ rewrite append_assoc in Hs.
              change (String sep "" +:+ word) with (String sep word) in Hs.
              rewrite str_split_app, length_app in Hs. simpl in Hs.
              pose proof (str_split_nonempty sep dir).
              pose proof (str_split_nonempty sep word).
              destruct (str_split sep dir), (str_split sep word);
                simpl in *; try done; lia.
        -- right. destruct Hpre as [->|[dir ->]].
           ++ change ("" +:+ word) with word in Hc. congruence.
           ++ by exists (String a dir).
      * rewrite (Hnone eq_refl) in *.
        change ("" +:+ word) with word in *.
        rewrite (str_split_whole _ _ Hword) in *.
        exists "", (String a word). split_and!; [done..| |by left|done].
        simpl. by rewrite decide_False.
Qed.

End strings.

(** Both branches of [_title] take the first dot-separated word of the
    last slash-separated word. *)
Lemma title_words {T : Type} (now : T) (hdf5 : string) :
  _title now hdf5
  = match last (str_split "/"%char hdf5) with
    | Some word =>
        match head (str_split "."%char word) with
        | Some name => Ok (name, now)
        | None => Raise IndexError
        end
    | None => Raise IndexError
    end.
Proof.
  unfold _title, getitem. rewrite last_lookup.
  replace (pred (length (str_split "/"%char hdf5)))
    with (length (str_split "/"%char hdf5) - 1) by lia.
  destruct (str_contains "/"%char hdf5) eqn:Hc.
  - destruct (_ !! _) as [word|]; simpl; [|done].
    rewrite <- head_lookup. by destruct (head _).
  - rewrite (str_split_whole _ _ Hc). simpl.
    rewrite <- head_lookup. by destruct (head _).
Qed.

Lemma base_name_title {T : Type} (now : T) (hdf5 name : string) :
  base_name hdf5 name → _title now hdf5 = Ok (name, now).
Proof.
  intros (pre & post & -> & Hpre & Hpost & Hslash & Hdot).
  rewrite title_words.
  assert (last (str_split "/"%char (pre +:+ name +:+ post))
          = Some (name +:+ post)) as ->.
  { destruct Hpre as [->|[dir ->]].
    - change ("" +:+ name +:+ post) with (name +:+ post).
      by rewrite (str_split_whole _ _ Hslash).
    - rewrite append_assoc.
      change ("/" +:+ name +:+ post) with (String "/" (name +:+ post)).
      rewrite str_split_app, (str_split_whole _ _ Hslash).
      by rewrite last_snoc. }
  destruct Hpost as [->|[ext ->]].
  - by rewrite append_nil_r, (str_split_whole _ _ Hdot).
  - change ("." +:+ ext) with (String "." ext).
    by rewrite str_split_app, (str_split_whole _ _ Hdot).
Qed.

(** X8.  [_title] always returns, with the time it was given, and the
    name it returns is the part of the path after the last slash and
    before the first dot that follows: directories are dropped, and so
    is everything from the first dot of the file name on. *)
Theorem title_is_base_name {T : Type} (now : T) (hdf5 : string) :
  ∃ name,
    _title now hdf5 = Ok (name, now) ∧
    ∀ name', base_name hdf5 name' ↔ name' = name.
Proof.
  destruct (str_split_last "/"%char hdf5)
    as (pre & word & Hlast & -> & Hslash & Hpre & _).
  destruct (str_split_head "."%char word)
    as (name & post & Hhead & -> & Hdot & Hpost).
  assert (base_name (pre +:+ name +:+ post) name) as Hbase.
  { exists pre, post. split_and!; [done| |  |done..].
    - destruct Hpre as [->|[dir ->]]; [by left|right; by exists dir].
    - destruct Hpost as [->|[ext ->]]; [by left|right; by exists ext]. }
  exists name. split; [by apply base_name_title|].
  intros name'. split; [|by intros ->].
  intros Hbase'. apply (base_name_title now) in Hbase, Hbase'. congruence.
Qed.

(** A path with directories, dots in a directory name and two
    extensions. *)
Example title_of_a_path :
  _title 0%Z "run.1/geom.v2.h5m" = Ok ("geom", 0%Z).
Proof. reflexivity. Qed.

(** ** Renaming the nuclides *)

Section nucid_to_xs.
Context (nuc_names : gmap Z string).
Implicit Types (comp : gmap Z Q) (xs : gmap string Q) (warned : list string).

Lemma rename_step (nucid : Z) (dens : Q) xs warned :
  match nuc_names !! nucid with
  | Some name => (<[name := dens]> xs, warned)
  | None => (<[pretty nucid := dens]> xs, warned ++ [warning nucid])
  end
  = (<[xs_name nuc_names nucid := dens]> xs,
     warned ++ match nuc_names !! nucid with
               | Some _ => []
               | None => [warning nucid]
               end).
Proof.
  unfold xs_name. destruct (nuc_names !! nucid); simpl; [|done].
  by rewrite app_nil_r.
Qed.

(** What the inner loop leaves: the names of all the nuclides as keys,
    each with the density of a nuclide of that name, no more keys than
    nuclides, and one warning for each nuclide without a name. *)
Lemma rename_nuclides_spec comp warned :
  ∃ xs new,
    rename_nuclides nuc_names comp warned = (xs, warned ++ new) ∧
    (∀ nucid, is_Some (comp !! nucid) →
       is_Some (xs !! xs_name nuc_names nucid)) ∧
    (∀ s d, xs !! s = Some d →
       ∃ nucid, comp !! nucid = Some d ∧ xs_name nuc_names nucid = s) ∧
    (distinct_names nuc_names comp →
       ∀ nucid d, comp !! nucid = Some d →
         xs !! xs_name nuc_names nucid = Some d) ∧
    size xs ≤ size comp ∧
    (distinct_names nuc_names comp → size xs = size comp) ∧
    (¬ distinct_names nuc_names comp → size xs < size comp) ∧
    (∀ t, t ∈ new ↔
       ∃ nucid, is_Some (comp !! nucid) ∧ nuc_names !! nucid = None ∧
                t = warning nucid).
Proof.
  unfold rename_nuclides.
  apply (map_fold_weak_ind (λ r comp, ∃ xs new,
    r = (xs, warned ++ new) ∧
    (∀ nucid, is_Some (comp !! nucid) →
       is_Some (xs !! xs_name nuc_names nucid)) ∧
    (∀ s d, xs !! s = Some d →
       ∃ nucid, comp !! nucid = Some d ∧ xs_name nuc_names nucid = s) ∧
    (distinct_names nuc_names comp →
       ∀ nucid d, comp !! nucid = Some d →
         xs !! xs_name nuc_names nucid = Some d) ∧
    size xs ≤ size comp ∧
    (distinct_names nuc_names comp → size xs = size comp) ∧
    (¬ distinct_names nuc_names comp → size xs < size comp) ∧
    (∀ t, t ∈ new ↔
       ∃ nucid, is_Some (comp !! nucid) ∧ nuc_names !! nucid = None ∧
                t = warning nucid))).
  - exists ∅, []. rewrite app_nil_r. split_and!; try done.
    + intros Hnot. destruct Hnot. by intros n1 n2 [? ?].
    + intros t. split; [by intros ?%elem_of_nil|]. by intros (? & [? ?] & _).
  - intros i x m r Hi
      (xs & new & -> & Hkeys & Hfrom & Hinj & Hle & Hsame & Hlt & Hw).
    rewrite rename_step, <- app_assoc. eexists _, _. split; [done|].
    assert (Hsize : size (<[i := x]> m) = S (size m)).
    { by rewrite map_size_insert_None. }
    split_and!.
    + intros nucid. destruct (decide (nucid = i)) as [->|Hne].
      * intros _. by rewrite lookup_insert_eq.
      * rewrite lookup_insert_ne by done. intros Hin%Hkeys.
        rewrite lookup_insert. by case_decide.
    + intros s d. rewrite lookup_insert. case_decide as Hs.
      * intros [= <-]. exists i. by rewrite lookup_insert_eq.
      * intros (nucid & Hn & <-)%Hfrom. exists nucid. split; [|done].
        rewrite lookup_insert_ne; [done|]. intros ->. by rewrite Hi in Hn.
    + intros Hdist nucid d. destruct (decide (nucid = i)) as [->|Hne].
      { by rewrite !lookup_insert_eq. }
      rewrite (lookup_insert_ne m) by done. intros Hn.
      rewrite lookup_insert_ne.
      * apply Hinj; [|done]. intros n1 n2 [d1 H1] [d2 H2].
        apply Hdist; rewrite lookup_insert_ne; try (by eexists);
          intros ->; congruence.
      * intros Hname. apply Hne. symmetry. apply Hdist; [| |done].
        -- by rewrite lookup_insert_eq.
        -- rewrite lookup_insert_ne by done. by eexists.
    + rewrite Hsize. destruct (xs !! xs_name nuc_names i) eqn:Hx.
      * rewrite map_size_insert_Some by done. lia.
      * rewrite map_size_insert_None by done. lia.
    + intros Hdist. rewrite Hsize.
      assert (distinct_names nuc_names m) as Hdist'.
      { intros n1 n2 [d1 H1] [d2 H2].
        apply Hdist; rewrite lookup_insert_ne; try (by eexists);
          intros ->; congruence. }
      destruct (xs !! xs_name nuc_names i) as [d|] eqn:Hx.
      { apply Hfrom in Hx as (nucid & Hn & Hname).
        assert (nucid = i) as ->; [|congruence].
        apply Hdist; [| |done].
        - rewrite lookup_insert_ne; [by eexists|]. intros ->. congruence.
        - by rewrite lookup_insert_eq. }
      rewrite map_size_insert_None by done. by rewrite Hsame.
    + intros Hnot. rewrite Hsize.
      destruct (xs !! xs_name nuc_names i) eqn:Hx.
      { rewrite map_size_insert_Some by done. lia. }
      rewrite map_size_insert_None by done.
      enough (size xs < size m) by lia. apply Hlt. intros Hdist.
      apply Hnot. intros n1 n2 H1 H2 Hname.
      destruct (decide (n1 = i)) as [->|Hne1], (decide (n2 = i)) as [->|Hne2];
        try done.
      * rewrite lookup_insert_ne in H2 by done. apply Hkeys in H2.
        rewrite <- Hname, Hx in H2. by destruct H2.
      * rewrite lookup_insert_ne in H1 by done. apply Hkeys in H1.
        rewrite Hname, Hx in H1. by destruct H1.
      * rewrite lookup_insert_ne in H1, H2 by done. by apply Hdist.
    + intros t. rewrite elem_of_app, Hw. split.
      * intros [(nucid & [d Hn] & Hnone & ->)|Ht].
        -- exists nucid. split_and!; [|done..].
           rewrite lookup_insert_ne; [by eexists|]. intros ->. congruence.
        -- destruct (nuc_names !! i) eqn:Hnone.
           { by apply elem_of_nil in Ht. }
           apply list_elem_of_singleton in Ht as ->. exists i.
           by rewrite lookup_insert_eq.
      * intros (nucid & Hn & Hnone & ->).
        destruct (decide (nucid = i)) as [->|Hne].
        -- right. rewrite Hnone. by left.
        -- left. exists nucid. by rewrite lookup_insert_ne in Hn.
Qed.
End nucid_to_xs.

Section nucid_to_xs_materials.
Context (nuc_names : gmap Z string) (xs_names : list (Z * string)).
Implicit Types (mat_lib : gmap string (gmap Z Q)) (comp : gmap Z Q).

(** The renamed composition does not depend on the warnings issued
    before. *)
Lemma rename_nuclides_fst comp (warned : list string) :
  (rename_nuclides nuc_names comp warned).1
  = (rename_nuclides nuc_names comp []).1.
Proof.
  unfold rename_nuclides. rewrite !map_fold_foldr.
  induction (map_to_list comp) as [|[nucid dens] l IH]; simpl; [done|].
  destruct (foldr _ (∅, warned) l) as [xs w],
           (foldr _ (∅, []) l) as [xs' w']. simpl in IH. subst xs'.
  by destruct (nuc_names !! nucid).
Qed.

(** What the outer loop leaves: under every material its renamed
    composition, and the warnings of all the materials. *)
Lemma nucid_to_xs_spec mat_lib :
  ∃ mat_xs_names warned,
    _nucid_to_xs mat_lib xs_names nuc_names = (mat_xs_names, warned) ∧
    (∀ mat, mat_xs_names !! mat
       = (λ comp, (rename_nuclides nuc_names comp []).1)
           <$> mat_lib !! mat) ∧
    (∀ t, t ∈ warned ↔
       ∃ mat comp nucid, mat_lib !! mat = Some comp ∧
         is_Some (comp !! nucid) ∧ nuc_names !! nucid = None ∧
         t = warning nucid).
Proof.
  unfold _nucid_to_xs.
  apply (map_fold_weak_ind (λ r mat_lib, ∃ mat_xs_names warned,
    r = (mat_xs_names, warned) ∧
    (∀ mat, mat_xs_names !! mat
       = (λ comp, (rename_nuclides nuc_names comp []).1)
           <$> mat_lib !! mat) ∧
    (∀ t, t ∈ warned ↔
       ∃ mat comp nucid, mat_lib !! mat = Some comp ∧
         is_Some (comp !! nucid) ∧ nuc_names !! nucid = None ∧
         t = warning nucid))).
  - exists ∅, []. split_and!; [done..|]. intros t.
    split; [by intros ?%elem_of_nil|]. by intros (? & ? & ? & ? & _).
  - intros mat comp m r Hmat (mxn & warned & -> & Hlook & Hw).
    pose proof (rename_nuclides_fst comp warned) as Hfst.
    destruct (rename_nuclides_spec nuc_names comp warned)
      as (xs & new & Hxs & _ & _ & _ & _ & _ & _ & Hnew).
    rewrite Hxs in *. simpl in Hfst. eexists _, _. split; [done|]. split.
    + intros mat'. destruct (decide (mat' = mat)) as [->|Hne].
      * rewrite !lookup_insert_eq. simpl. by rewrite Hfst.
      * by rewrite !lookup_insert_ne.
    + intros t. rewrite elem_of_app, Hw, Hnew. split.
      * intros [(mat' & comp' & nucid & Hm & Hn)|(nucid & Hn)].
        -- exists mat', comp', nucid. split; [|done].
           rewrite lookup_insert_ne; [done|]. intros ->. congruence.
        -- exists mat, comp, nucid. by rewrite lookup_insert_eq.
      * intros (mat' & comp' & nucid & Hm & Hn).
        destruct (decide (mat' = mat)) as [->|Hne].
        -- rewrite lookup_insert_eq in Hm. injection Hm as <-.
           right. by exists nucid.
        -- rewrite lookup_insert_ne in Hm by done.
           left. by exists mat', comp', nucid.
Qed.

End nucid_to_xs_materials.

(** X9.  [_nucid_to_xs] returns an entry for the materials of the
    library and for no other.  The entry of a material has a key for the
    name of each of its nuclides, every density in it is the density of
    a nuclide of that name, and it has no more keys than the material
    has nuclides. *)
Theorem nucid_to_xs_entries (mat_lib : gmap string (gmap Z Q))
  (xs_names : list (Z * string)) (nuc_names : gmap Z string) :
  let mat_xs_names := (_nucid_to_xs mat_lib xs_names nuc_names).1 in
  (∀ mat, is_Some (mat_xs_names !! mat) ↔ is_Some (mat_lib !! mat)) ∧
  ∀ mat comp, mat_lib !! mat = Some comp →
    ∃ xs, mat_xs_names !! mat = Some xs ∧
      (∀ nucid, is_Some (comp !! nucid) →
         is_Some (xs !! xs_name nuc_names nucid)) ∧
      (∀ s d, xs !! s = Some d →
         ∃ nucid, comp !! nucid = Some d ∧ xs_name nuc_names nucid = s) ∧
      size xs ≤ size comp.
Proof.
  destruct (nucid_to_xs_spec nuc_names xs_names mat_lib)
    as (mxn & warned & -> & Hlook & _). simpl. split.
  - intros mat. rewrite Hlook. apply fmap_is_Some.
  - intros mat comp Hmat.
    destruct (rename_nuclides_spec nuc_names comp [])
      as (xs & new & Hxs & Hkeys & Hfrom & _ & Hle & _).
    exists xs. rewrite Hlook, Hmat. simpl. by rewrite Hxs.
Qed.

(** X10.  When no two nuclides of a material go by the same name, its
    entry holds the density of every nuclide under the name of that
    nuclide, and has as many keys as the material has nuclides. *)
Theorem nucid_to_xs_distinct_names (mat_lib : gmap string (gmap Z Q))
  (xs_names : list (Z * string)) (nuc_names : gmap Z string)
  (mat : string) (comp : gmap Z Q) :
  mat_lib !! mat = Some comp → distinct_names nuc_names comp →
  ∃ xs,
    (_nucid_to_xs mat_lib xs_names nuc_names).1 !! mat = Some xs ∧
    size xs = size comp ∧
    ∀ nucid d, comp !! nucid = Some d →
      xs !! xs_name nuc_names nucid = Some d.
Proof.
  intros Hmat Hdist.
  destruct (nucid_to_xs_spec nuc_names xs_names mat_lib)
    as (mxn & warned & -> & Hlook & _). simpl.
  destruct (rename_nuclides_spec nuc_names comp [])
    as (xs & new & Hxs & _ & _ & Hinj & _ & Hsame & _).
  exists xs. rewrite Hlook, Hmat. simpl. rewrite Hxs.
  split_and!; [done|by apply Hsame|by apply Hinj].
Qed.

Lemma nucid_to_xs_distinct_names_witness :
  ∃ xs,
    (_nucid_to_xs lib_water [] names_H_O).1 !! "mat:water" = Some xs ∧
    size xs = size water ∧
    ∀ nucid d, water !! nucid = Some d →
      xs !! xs_name names_H_O nucid = Some d.
Proof.
  apply (nucid_to_xs_distinct_names lib_water [] names_H_O "mat:water" water).
  - reflexivity.
  - intros n1 n2 [d1 H1] [d2 H2]. unfold water in H1, H2.
    apply lookup_insert_Some in H1 as [[<- _]|[_ [<- _]%lookup_singleton_Some]];
      apply lookup_insert_Some in H2
        as [[<- _]|[_ [<- _]%lookup_singleton_Some]];
      by vm_compute.
Defined.

(** X11.  When two nuclides of a material go by the same name, one of
    the two densities is dropped: the entry of the material has fewer
    keys than the material has nuclides, and under the shared name it
    holds the density of a single nuclide of that name. *)
Theorem nucid_to_xs_shared_name (mat_lib : gmap string (gmap Z Q))
  (xs_names : list (Z * string)) (nuc_names : gmap Z string)
  (mat : string) (comp : gmap Z Q) (n1 n2 : Z) :
  mat_lib !! mat = Some comp →
  is_Some (comp !! n1) → is_Some (comp !! n2) → n1 ≠ n2 →
  xs_name nuc_names n1 = xs_name nuc_names n2 →
  ∃ xs,
    (_nucid_to_xs mat_lib xs_names nuc_names).1 !! mat = Some xs ∧
    size xs < size comp ∧
    ∃ nucid d, xs !! xs_name nuc_names n1 = Some d ∧
      comp !! nucid = Some d ∧
      xs_name nuc_names nucid = xs_name nuc_names n1.
Proof.
  intros Hmat H1 H2 Hne Hname.
  destruct (nucid_to_xs_spec nuc_names xs_names mat_lib)
    as (mxn & warned & -> & Hlook & _). simpl.
  destruct (rename_nuclides_spec nuc_names comp [])
    as (xs & new & Hxs & Hkeys & Hfrom & _ & _ & _ & Hlt & _).
  exists xs. rewrite Hlook, Hmat. simpl. rewrite Hxs. split_and!; [done| |].
  - apply Hlt. intros Hdist. by apply Hne, Hdist.
  - destruct (Hkeys n1 H1) as [d Hd].
    destruct (Hfrom _ _ Hd) as (nucid & Hn & Hnucid). by exists nucid, d.
Qed.

Lemma nucid_to_xs_shared_name_witness :
  ∃ xs,
    (_nucid_to_xs lib_hydrogen [] names_one_H).1 !! "mat:hydrogen"
    = Some xs ∧
    size xs < size hydrogen ∧
    ∃ nucid d, xs !! xs_name names_one_H 10010000%Z = Some d ∧
      hydrogen !! nucid = Some d ∧
      xs_name names_one_H nucid = xs_name names_one_H 10010000%Z.
Proof.
  apply (nucid_to_xs_shared_name lib_hydrogen [] names_one_H "mat:hydrogen"
           hydrogen 10010000%Z 10020000%Z).
  - reflexivity.
  - by eexists.
  - by eexists.
  - lia.
  - reflexivity.
Defined.

(** X12.  [_nucid_to_xs] warns about the nuclides of the library that
    have no entry in [nuc_names], and about nothing else; it stays
    silent exactly when every nuclide of every material has a name. *)
Theorem nucid_to_xs_warnings (mat_lib : gmap string (gmap Z Q))
  (xs_names : list (Z * string)) (nuc_names : gmap Z string) :
  let warned := (_nucid_to_xs mat_lib xs_names nuc_names).2 in
  (∀ t, t ∈ warned ↔
     ∃ mat comp nucid, mat_lib !! mat = Some comp ∧
       is_Some (comp !! nucid) ∧ nuc_names !! nucid = None ∧
       t = warning nucid) ∧
  (warned = [] ↔
     ∀ mat comp nucid, mat_lib !! mat = Some comp →
       is_Some (comp !! nucid) → is_Some (nuc_names !! nucid)).
Proof.
  destruct (nucid_to_xs_spec nuc_names xs_names mat_lib)
    as (mxn & warned & -> & _ & Hw). simpl. split; [done|]. split.
  - intros -> mat comp nucid Hmat Hn.
    destruct (nuc_names !! nucid) eqn:Hnone; [done|].
    exfalso. apply (elem_of_nil (warning nucid)), Hw.
    by exists mat, comp, nucid.
  - intros Hall. destruct warned as [|t warned]; [done|].
    destruct (proj1 (Hw t)) as (mat & comp & nucid & Hmat & Hn & Hnone & _);
      [by left|].
    destruct (Hall mat comp nucid Hmat Hn) as [? ?]. congruence.
Qed.

(** X13.  Fed with the library of [_get_material_lib], [_nucid_to_xs]
    gives every material the same entry: the renaming of the one
    dictionary in which the nuclides of all the materials were
    collected. *)
Theorem material_lib_renamed_alike
  (atom_dens : list (string * list (Z * Q))) (h : heap)
  (xs_names : list (Z * string)) (nuc_names : gmap Z string) :
  let '(mat_lib, h') := _get_material_lib atom_dens h in
  ∀ mat,
    (_nucid_to_xs (compositions mat_lib h') xs_names nuc_names).1 !! mat
    = if decide (mat ∈ atom_dens.*1)
      then Some (rename_nuclides nuc_names (all_entries atom_dens) []).1
      else None.
Proof.
  unfold _get_material_lib, new_dict. rewrite write_materials.
  fold (all_entries atom_dens). intros mat.
  destruct (nucid_to_xs_spec nuc_names xs_names
              (compositions
                 (foldl (λ mat_lib mat_name,
                           <[mat_name := fresh (dom h)]> mat_lib)
                        ∅ atom_dens.*1)
                 (<[fresh (dom h) := all_entries atom_dens]> h)))
    as (mxn & warned & -> & Hlook & _). simpl.
  rewrite Hlook. unfold compositions.
  rewrite lookup_omap, lookup_names, lookup_empty.
  case_decide; simpl; [|done]. by rewrite lookup_insert_eq.
Qed.

(** Water and steel come out with the same two entries, the nuclides
    without a name filed under their numerals. *)
Example water_and_steel_renamed_alike :
  let '(mat_lib, h) := _get_material_lib two_materials ∅ in
  let mat_xs_names :=
    (_nucid_to_xs (compositions mat_lib h) [] names_H_O).1 in
  mat_xs_names !! "mat:water" = mat_xs_names !! "mat:steel" ∧
  (mat_xs_names !! "mat:water" ≫= lookup "h1")
  = Some ((3 # 1) * ten_pow_m24)%Q ∧
  (mat_xs_names !! "mat:water" ≫= lookup "260560000")
  = Some ((8 # 1) * ten_pow_m24)%Q.
Proof. by vm_compute. Qed.

(** ** The mesh and source entries *)

Lemma source_array_Ok (n nmq : Z) :
  (0 ≤ n)%Z → (1 ≤ nmq)%Z →
  source_array n nmq
  = Ok (Array (replicate (Z.to_nat n)
                 (1%Q :: replicate (Z.to_nat nmq - 1) 0%Q))).
Proof.
  intros Hn Hnmq. unfold source_array.
  rewrite decide_False by lia. by rewrite decide_False by lia.
Qed.

Lemma source_array_no_column (n nmq : Z) :
  (nmq ≤ 0)%Z →
  source_array n nmq = Raise ValueError ∨ source_array n nmq = Raise IndexError.
Proof.
  intros Hnmq. unfold source_array.
  destruct (decide (n < 0 ∨ nmq < 0)%Z); [by left|].
  rewrite decide_True by lia. by right.
Qed.

(** The loop over the items [l] of [bounds]. *)
Lemma mesh_entries_items (nmq : Z) (l : list (string * list Q)) :
  (1 ≤ nmq)%Z → Forall (λ kv, kv.2 ≠ []) l → NoDup l.*1 →
  ∀ b, ∃ b',
    for_ l (λ '(key, divs), set_mesh_entries nmq key divs) b = Ok b' ∧
    (∀ axis IM MESH SRC, (axis, (IM, MESH, SRC)) ∈ axis_keys →
       block01 b' !! IM
       = match (list_to_map l : gmap string (list Q)) !! axis with
         | Some divs => Some (Int (Z.of_nat (length divs) - 1))
         | None => block01 b !! IM
         end ∧
       block02 b' !! MESH
       = match (list_to_map l : gmap string (list Q)) !! axis with
         | Some divs => Some (Floats divs)
         | None => block02 b !! MESH
         end ∧
       block05 b' !! SRC
       = match (list_to_map l : gmap string (list Q)) !! axis with
         | Some divs =>
             Some (Array (replicate (length divs - 1)
                            (1%Q :: replicate (Z.to_nat nmq - 1) 0%Q)))
         | None => block05 b !! SRC
         end) ∧
    block02 b' !! "ZMESH" = block02 b !! "ZMESH".
Proof.
  intros Hnmq. induction l as [|[key divs] l IH]; intros Hdivs Hnodup b.
  { exists b. split; [done|]. split; [|done]. intros axis IM MESH SRC _.
    by rewrite list_to_map_nil, lookup_empty. }
  apply Forall_cons in Hdivs as [Hne Hdivs].
  apply NoDup_cons in Hnodup as [Hkey Hnodup].
  assert ((list_to_map l : gmap string (list Q)) !! key = None) as Hnone.
  { by apply not_elem_of_list_to_map_1. }
  assert (source_array (Z.of_nat (length divs) - 1) nmq
          = Ok (Array (replicate (length divs - 1)
                         (1%Q :: replicate (Z.to_nat nmq - 1) 0%Q)))) as Hsrc.
  { rewrite source_array_Ok; [|destruct divs; simpl in *; [done|lia]|done].
    do 3 f_equal. lia. }
  simpl in *. unfold set_mesh_entries. rewrite Hsrc. simpl.
  repeat case_decide; subst;
    match goal with
    | |- ∃ b', for_ l _ ?b1 = _ ∧ _ =>
        destruct (IH Hdivs Hnodup b1) as (b' & Hfor & Hkeys & Hz)
    end;
    (exists b'; split; [exact Hfor|];
     split; [|by rewrite Hz; simplify_map_eq]);
    intros axis IM MESH SRC Hin;
    destruct (Hkeys axis IM MESH SRC Hin) as (Hb1 & Hb2 & Hb5);
    rewrite Hb1, Hb2, Hb5; clear Hb1 Hb2 Hb5 Hkeys;
    repeat (apply elem_of_cons in Hin as [[= -> -> -> ->]|Hin]);
    try (by apply elem_of_nil in Hin);
    rewrite ?lookup_insert_eq, ?Hnone; simpl;
    rewrite ?lookup_insert_ne by done;
    first [by destruct (list_to_map l !! _)|by simplify_map_eq].
Qed.

(** X14.  With at least one source moment, no negative number of groups
    and no empty list of divisions, the entries are set.  For an axis of
    [bounds] the blocks then hold its number of intervals, its divisions
    and a source array with ones in column 0; for an axis that is not in
    [bounds] these entries are left as they were.  The divisions of z go
    under [XZMESH]; [ZMESH] is never written. *)
Theorem mesh_and_source_entries_set (bounds : gmap string (list Q))
  (ngroup nmq : Z) (b : blocks) :
  (1 ≤ nmq)%Z → (0 ≤ ngroup)%Z →
  (∀ axis divs, bounds !! axis = Some divs → divs ≠ []) →
  ∃ b',
    mesh_and_source_entries bounds ngroup nmq b = Ok b' ∧
    (∀ axis IM MESH SRC, (axis, (IM, MESH, SRC)) ∈ axis_keys →
       block01 b' !! IM
       = match bounds !! axis with
         | Some divs => Some (Int (Z.of_nat (length divs) - 1))
         | None => block01 b !! IM
         end ∧
       block02 b' !! MESH
       = match bounds !! axis with
         | Some divs => Some (Floats divs)
         | None => block02 b !! MESH
         end ∧
       block05 b' !! SRC
       = match bounds !! axis with
         | Some divs =>
             Some (Array (replicate (length divs - 1)
                            (1%Q :: replicate (Z.to_nat nmq - 1) 0%Q)))
         | None => block05 b !! SRC
         end) ∧
    block02 b' !! "ZMESH" = block02 b !! "ZMESH".
Proof.
  intros Hnmq Hngroup Hdivs. unfold mesh_and_source_entries.
  destruct (mesh_entries_items nmq (map_to_list bounds) Hnmq) with (b := b)
    as (b1 & -> & Hkeys & Hz).
  { apply Forall_forall. intros [axis divs] Hin%elem_of_map_to_list.
    by apply (Hdivs axis). }
  { apply NoDup_fst_map_to_list. }
  simpl. rewrite source_array_Ok by done. simpl. eexists. split; [done|].
  simpl. split; [|done]. intros axis IM MESH SRC Hin.
  destruct (Hkeys axis IM MESH SRC Hin) as (Hb1 & Hb2 & Hb5).
  rewrite list_to_map_to_list in Hb1, Hb2, Hb5. split_and!; [done..|].
  rewrite <- Hb5.
  repeat (apply elem_of_cons in Hin as [[= -> -> -> ->]|Hin]);
    try (by apply elem_of_nil in Hin); by simplify_map_eq.
Qed.

Lemma mesh_and_source_entries_set_witness :
  ∃ b',
    mesh_and_source_entries bounds_x2 1 1 no_entries = Ok b' ∧
    block01 b' !! "IM" = Some (Int 2) ∧
    block01 b' !! "KM" = None ∧
    block02 b' !! "ZMESH" = None.
Proof.
  destruct (mesh_and_source_entries_set bounds_x2 1 1 no_entries)
    as (b' & Hb' & Hkeys & Hz); [lia|lia| |].
  - intros axis divs Hdivs. unfold bounds_x2 in Hdivs.
    by apply lookup_singleton_Some in Hdivs as [_ <-].
  - exists b'. split; [done|].
    destruct (Hkeys "x" "IM" "XMESH" "SOURCX") as (Hx & _); [by left|].
    destruct (Hkeys "z" "KM" "XZMESH" "SOURCZ") as (Hk & _);
      [right; right; by left|].
    by rewrite Hx, Hk, Hz.
Defined.

(** X15.  Without a source moment no input is assembled: when [nmq] is
    zero or negative the source arrays cannot be filled, and the entries
    end in a [ValueError] or an [IndexError] whatever the bounds and the
    number of groups are. *)
Theorem mesh_and_source_entries_need_a_moment
  (bounds : gmap string (list Q)) (ngroup nmq : Z) (b : blocks) :
  (nmq ≤ 0)%Z →
  ∃ e, mesh_and_source_entries bounds ngroup nmq b = Raise e ∧
       (e = ValueError ∨ e = IndexError).
Proof.
  intros Hnmq. unfold mesh_and_source_entries.
  pose proof (for_outcome (λ '(key, divs), set_mesh_entries nmq key divs)
                (λ _, True) (λ e, e = ValueError ∨ e = IndexError)
                (map_to_list bounds) b) as Hloop.
  destruct (for_ _ _ b) as [b1|e].
  - simpl. destruct (source_array_no_column ngroup nmq Hnmq) as [->| ->];
      eexists; (split; [done|]); [by left|by right].
  - exists e. split; [done|]. apply Hloop; [|done].
    intros [key divs] s _ _. unfold set_mesh_entries.
    repeat case_decide; try done;
      by destruct (source_array_no_column (Z.of_nat (length divs) - 1)
                     nmq Hnmq) as [->| ->]; simpl; [left|right].
Qed.

Lemma mesh_and_source_entries_need_a_moment_witness :
  ∃ e, mesh_and_source_entries bounds_x2 1 0 no_entries = Raise e ∧
       (e = ValueError ∨ e = IndexError).
Proof.
  apply (mesh_and_source_entries_need_a_moment bounds_x2 1 0 no_entries).
  lia.
Defined.

(** ** The zone dictionary *)

(** X16.  The zone dictionary that [_get_zones] returns holds nothing
    but compositions of recorded voxels: every entry is the merged
    composition of the records of some voxel, none has a material list
    that counts as void, and no entry is close to an entry with a
    smaller number. *)
Theorem zone_dictionary_entries (dg : list dg_record)
  (mat_assigns : gmap Z string) (bounds : gmap string (list Q))
  (ZONES : ndarray) (zones_mats : dict Zone.t) :
  _get_zones dg mat_assigns bounds = Ok (ZONES, zones_mats) →
  (∀ zone info, (zone, info) ∈ zones_mats →
     (Zone.mat info ∉ void_mats) ∧
     ∃ idx cell f, (idx, cell, f) ∈ dg ∧
       composition_of_records mat_assigns (records_of idx dg) info) ∧
  (∀ n1 n2 zone1 info1 zone2 info2, n1 < n2 →
     zones_mats !! n1 = Some (zone1, info1) →
     zones_mats !! n2 = Some (zone2, info2) →
     close info2 info1 = false).
Proof.
  intros Hget.
  destruct (get_zones_Ok _ _ _ _ _ Hget)
    as (zones & Hzones & Hcells & Hkeys & _ & -> & _).
  destruct (merge_materials_records dg mat_assigns Hcells)
    as (zones' & Hzones' & _ & Hdom & Hcomp).
  assert (zones' = zones) as -> by congruence. split.
  - intros zone info Hin. split.
    + apply registered_not_void in Hin. unfold is_void in Hin.
      by apply bool_decide_eq_false in Hin.
    + apply registered_used in Hin as (idx & Hidx & _); [|done].
      destruct (proj1 (Hdom idx)) as (cell & f & Hrec).
      { apply list_elem_of_fmap. by exists (idx, info). }
      exists idx, cell, f. split; [done|]. by apply Hcomp.
  - intros n1 n2 zone1 info1 zone2 info2 Hlt H1 H2.
    apply registered_first in H2.
    apply (proj1 (first_match_None _ _) H2 zone1).
    apply list_elem_of_lookup. exists n1. rewrite lookup_take_lt by done.
    done.
Qed.

Lemma zone_dictionary_entries_witness :
  (∀ zone info, (zone, info) ∈ [(1%Z, comp_A (1 # 1))] →
     (Zone.mat info ∉ void_mats) ∧
     ∃ idx cell f, (idx, cell, f) ∈ dg_four_voxels ∧
       composition_of_records cells_ABV (records_of idx dg_four_voxels) info) ∧
  (∀ n1 n2 zone1 info1 zone2 info2, n1 < n2 →
     [(1%Z, comp_A (1 # 1))] !! n1 = Some (zone1, info1) →
     [(1%Z, comp_A (1 # 1))] !! n2 = Some (zone2, info2) →
     close info2 info1 = false).
Proof.
  apply (zone_dictionary_entries dg_four_voxels cells_ABV bounds_x4
           {| shape := (4, 1)%Z; data := [1; 1; 0; 0]%Z |}).
  by vm_compute.
Defined.
